(** * Sudoku solver (src/Sudoko.js): embedding and verification

    The solver of the React component [SudokuSolver] consists of three
    functions, [isValid], [findEmptyCell] and [solveSudoku].  They are
    embedded here as Rocq functions over a board that is a list of rows,
    each row a list of integers, exactly as [handleSolve] builds
    [numberBoard] (an array of arrays of numbers, 0 for an empty cell).

    - Reading [board[i][j]] is [index2]: it raises a [TypeError] when
      [board[i]] is undefined and yields [undefined] (here [None]) when the
      row exists but is too short.
    - [for] loops with an early [return] are [for_range].
    - [solveSudoku] mutates the board in place; the embedding threads the
      board through the calls and returns it with the result.  Its recursion
      is not structural, so it takes a fuel argument; [solveSudoku_total]
      shows that fuel above the number of empty cells always suffices and
      [solveSudoku_fuel_mono] that the result does not depend on the fuel. *)

From Stdlib Require Import ZifyNat.
From stdpp Require Import base option list strings numbers.

(** ** Data model *)

Abbreviation board := (list (list Z)).

(** Outcome of evaluating a JavaScript expression or call: a value, or the
    [TypeError] raised by indexing [undefined]. *)
Inductive exn (A : Type) : Type :=
  | Val (a : A)
  | TypeError.
Arguments Val {A} a.
Arguments TypeError {A}.

Definition exn_bind {A B} (m : exn A) (k : A → exn B) : exn B :=
  match m with
  | Val a => k a
  | TypeError => TypeError
  end.

Notation "'let!' x := m 'in' k" := (exn_bind m (λ x, k))
  (at level 10, x name, m at level 100, k at level 200, only parsing).

(** A statement inside a function body either falls through ([Val None]),
    executes [return r] ([Val (Some r)]), or throws.  [s ;;; k] runs the
    rest [k] of the body only when [s] falls through. *)
Definition and_then {R} (s : exn (option R)) (k : exn R) : exn R :=
  match s with
  | Val None => k
  | Val (Some r) => Val r
  | TypeError => TypeError
  end.

Notation "s ;;; k" := (and_then s k) (at level 60, right associativity).

(** [for (let i = lo; i < lo + n; i++) body(i)] *)
Fixpoint for_range {R} (lo n : nat) (body : nat → exn (option R))
  : exn (option R) :=
  match n with
  | O => Val None
  | S n' =>
      match body lo with
      | Val None => for_range (S lo) n' body
      | stop => stop
      end
  end.

(** [board[i][j]] *)
Definition index2 (b : board) (i j : nat) : exn (option Z) :=
  match b !! i with
  | None => TypeError
  | Some r => Val (r !! j)
  end.

(** [v === num] for a cell value (possibly [undefined]) and a number. *)
Definition strict_eq (v : option Z) (num : Z) : bool :=
  match v with
  | Some x => Z.eqb x num
  | None => false
  end.

(** [board[row][col] = v], at a position that exists.  [solveSudoku] only
    stores at coordinates obtained from [findEmptyCell], where the cell
    exists ([findEmptyCell_Some]), so the growth of a JavaScript array on an
    out-of-range store never happens; there [store] leaves the board as it
    is. *)
Definition store (b : board) (row col : nat) (v : Z) : board :=
  alter (λ r, <[col := v]> r) row b.

(** ** The three functions of the source *)

(** [if (board[i][j] === num) return r;] *)
Definition return_if_eq {R} (b : board) (i j : nat) (num : Z) (r : R)
  : exn (option R) :=
  let! v := index2 b i j in
  Val (if strict_eq v num then Some r else None).

Definition isValid (b : board) (row col : nat) (num : Z) : exn bool :=
  (* Check row *)
  for_range 0 9 (λ j, return_if_eq b row j num false) ;;;
  (* Check column *)
  for_range 0 9 (λ i, return_if_eq b i col num false) ;;;
  (* Check 3x3 box *)
  let boxRow := row / 3 * 3 in
  let boxCol := col / 3 * 3 in
  for_range boxRow 3 (λ i,
    for_range boxCol 3 (λ j, return_if_eq b i j num false)) ;;;
  Val true.

(** [null] is [None], the pair [[i, j]] is [Some (i, j)]. *)
Definition findEmptyCell (b : board) : exn (option (nat * nat)) :=
  for_range 0 9 (λ i,
    for_range 0 9 (λ j, return_if_eq b i j 0%Z (Some (i, j)))) ;;;
  Val None.

(** Result of a call of [solveSudoku]: [None] when the fuel ran out,
    otherwise what the call produced together with the board it left. *)
Definition outcome : Type := option (exn bool * board).

(** The loop [for (let num = ...; num <= 9; num++)] of [solveSudoku] with
    [n] iterations left, [rec] standing for the recursive call. *)
Fixpoint try_candidates (rec : board → outcome) (row col : nat)
    (n : nat) (num : Z) (b : board) : option (exn (option bool) * board) :=
  match n with
  | O => Some (Val None, b)
  | S n' =>
      match isValid b row col num with
      | TypeError => Some (TypeError, b)
      | Val false => try_candidates rec row col n' (num + 1)%Z b
      | Val true =>
          match rec (store b row col num) with
          | None => None
          | Some (TypeError, b') => Some (TypeError, b')
          | Some (Val true, b') => Some (Val (Some true), b')
          | Some (Val false, b') =>
              (* Backtrack *)
              try_candidates rec row col n' (num + 1)%Z (store b' row col 0)
          end
      end
  end.

Fixpoint solveSudoku (fuel : nat) (b : board) : outcome :=
  match fuel with
  | O => None
  | S fuel' =>
      match findEmptyCell b with
      | TypeError => Some (TypeError, b)
      | Val None => Some (Val true, b) (* Solved *)
      | Val (Some (row, col)) =>
          match try_candidates (solveSudoku fuel') row col 9 1%Z b with
          | None => None
          | Some (TypeError, b') => Some (TypeError, b')
          | Some (Val (Some r), b') => Some (Val r, b')
          | Some (Val None, b') => Some (Val false, b')
          end
      end
  end.

(** The example puzzle of [loadExample], after the conversion of
    [handleSolve] (the empty string becomes 0, a digit its number). *)
Definition example : board :=
  [ [5;3;0;0;7;0;0;0;0];
    [6;0;0;1;9;5;0;0;0];
    [0;9;8;0;0;0;0;6;0];
    [8;0;0;0;6;0;0;0;3];
    [4;0;0;8;0;3;0;0;1];
    [7;0;0;0;2;0;0;0;6];
    [0;6;0;0;0;0;2;8;0];
    [0;0;0;4;1;9;0;0;5];
    [0;0;0;0;8;0;0;7;9] ]%Z.

(** ** The search with a log of its assignments *)







(** ** Specification vocabulary *)

(** The value of cell [(i, j)]; only used for positions that exist. *)
Definition get (b : board) (i j : nat) : Z :=
  default 0%Z (b !! i ≫= λ r, r !! j).

(** Nine rows of nine cells. *)
Definition shape9 (b : board) : Prop :=
  length b = 9 ∧ Forall (λ r : list Z, length r = 9) b.

(** Every cell holds a value in the closed range 0..9. *)
Definition in_range (b : board) : Prop :=
  Forall (Forall (λ v : Z, 0 ≤ v ≤ 9)%Z) b.

(** A well-formed grid: 81 cells, each 0..9. *)
Definition well_formed (b : board) : Prop := shape9 b ∧ in_range b.

Definition no_zeros (b : board) : Prop :=
  ∀ i j, i < 9 → j < 9 → get b i j ≠ 0%Z.

(** Position [(i, j)] is the first zero of [b] in row-major order. *)
Definition first_zero (b : board) (i j : nat) : Prop :=
  i < 9 ∧ j < 9 ∧ get b i j = 0%Z ∧
  ∀ i' j', i' < 9 → j' < 9 → (i' < i ∨ (i' = i ∧ j' < j)) →
    get b i' j' ≠ 0%Z.

Definition absent_row (b : board) (row : nat) (num : Z) : Prop :=
  ∀ j, j < 9 → get b row j ≠ num.

Definition absent_col (b : board) (col : nat) (num : Z) : Prop :=
  ∀ i, i < 9 → get b i col ≠ num.

(** The box of [(row, col)] is made of the cells with the same box index
    [(row / 3, col / 3)]. *)
Definition absent_box (b : board) (row col : nat) (num : Z) : Prop :=
  ∀ i j, i < 9 → j < 9 → i / 3 = row / 3 → j / 3 = col / 3 →
    get b i j ≠ num.

(** Two different positions that share a row, a column or a 3x3 box. *)
Definition peers (i j i' j' : nat) : Prop :=
  (i, j) ≠ (i', j') ∧ (i = i' ∨ j = j' ∨ (i / 3 = i' / 3 ∧ j / 3 = j' / 3)).

(** Every non-zero cell differs from every other cell of its row, column
    and box. *)
Definition consistent (b : board) : Prop :=
  ∀ i j i' j', i < 9 → j < 9 → i' < 9 → j' < 9 →
    peers i j i' j' → get b i j ≠ 0%Z → get b i j ≠ get b i' j'.

(** Two cells of one row, column or box hold the same non-zero digit. *)
Definition has_duplicate (b : board) : Prop :=
  ∃ i j i' j', i < 9 ∧ j < 9 ∧ i' < 9 ∧ j' < 9 ∧ peers i j i' j' ∧
    get b i j ≠ 0%Z ∧ get b i j = get b i' j'.

(** Every cell holds a digit 1..9. *)
Definition all_digits (b : board) : Prop :=
  ∀ i j, i < 9 → j < 9 → (1 ≤ get b i j ≤ 9)%Z.

(** No two cells of one row, column or box hold the same value. *)
Definition no_conflicts (b : board) : Prop :=
  ∀ i j i' j', i < 9 → j < 9 → i' < 9 → j' < 9 →
    peers i j i' j' → get b i j ≠ get b i' j'.

Definition digits : list Z := [1; 2; 3; 4; 5; 6; 7; 8; 9]%Z.

Definition row_of (b : board) (i : nat) : list Z :=
  (λ j, get b i j) <$> seq 0 9.

Definition col_of (b : board) (j : nat) : list Z :=
  (λ i, get b i j) <$> seq 0 9.

(** Box [k] (0..8, row-major over the nine boxes), its cells row-major. *)
Definition box_of (b : board) (k : nat) : list Z :=
  (λ m, get b (k / 3 * 3 + m / 3) (k mod 3 * 3 + m mod 3)) <$> seq 0 9.

(** Every row, column and box is a permutation of 1..9. *)
Definition solved (b : board) : Prop :=
  ∀ k, k < 9 →
    row_of b k ≡ₚ digits ∧ col_of b k ≡ₚ digits ∧ box_of b k ≡ₚ digits.

(** Every non-zero cell of [b] has the same value in [b']. *)
Definition same_givens (b b' : board) : Prop :=
  ∀ i j, i < 9 → j < 9 → get b i j ≠ 0%Z → get b' i j = get b i j.

(** Every cell that is empty in [b] holds in [b'] a digit 1..9 that occurs
    in no other cell of its row, column and box. *)
Definition placed_ok (b b' : board) : Prop :=
  ∀ i j, i < 9 → j < 9 → get b i j = 0%Z →
    (1 ≤ get b' i j ≤ 9)%Z ∧
    ∀ i' j', i' < 9 → j' < 9 → peers i j i' j' →
      get b' i j ≠ get b' i' j'.

(** [s] is a valid completion of the puzzle [b]. *)
Definition completes (b s : board) : Prop :=
  shape9 s ∧ same_givens b s ∧ solved s.




(** Number of cells holding 0. *)
Definition zeros_row (r : list Z) : nat :=
  length (filter (λ v, v = 0%Z) r).

Definition zeros (b : board) : nat := sum_list_with zeros_row b.

(** ** Notions used in the proofs *)

(** The two nested loops of [findEmptyCell]. *)
Definition scan_row (b : board) (i : nat) : exn (option (option (nat * nat))) :=
  for_range 0 9 (λ j, return_if_eq b i j 0%Z (Some (i, j))).

Definition scan (b : board) : exn (option (option (nat * nat))) :=
  for_range 0 9 (scan_row b).

(** A call that reports failure hands the board back as it received it. *)
Definition restores (rec : board → outcome) : Prop :=
  ∀ x y, rec x = Some (Val false, y) → y = x.


(** Every grid the search can reach when it does not stop at the first
    full grid.  This function is not in the source; it serves to show that
    the example has one completion only. *)
Fixpoint completions (fuel : nat) (b : board) : list board :=
  match fuel with
  | O => []
  | S fuel' =>
      match findEmptyCell b with
      | TypeError => []
      | Val None => [b]
      | Val (Some (row, col)) =>
          flat_map (λ num,
            match isValid b row col num with
            | Val true => completions fuel' (store b row col num)
            | _ => []
            end) digits
      end
  end.

(** Linear arithmetic with division and remainder by constants, for the
    box coordinates. *)
Ltac dlia := zify; Z.to_euclidean_division_equations; lia.

(** ** Executable checks of the hypotheses *)

Definition all9 (p : nat → bool) : bool := forallb p (seq 0 9).

Definition shape9b (b : board) : bool :=
  Nat.eqb (length b) 9 && forallb (λ r, Nat.eqb (length r) 9) b.

Definition in_rangeb (b : board) : bool :=
  forallb (forallb (λ v, Z.leb 0 v && Z.leb v 9)) b.

Definition no_zerosb (b : board) : bool :=
  all9 (λ i, all9 (λ j, negb (Z.eqb (get b i j) 0))).

Definition peersb (i j i' j' : nat) : bool :=
  negb (Nat.eqb i i' && Nat.eqb j j') &&
  (Nat.eqb i i' || Nat.eqb j j' ||
   (Nat.eqb (i / 3) (i' / 3) && Nat.eqb (j / 3) (j' / 3))).

Definition consistentb (b : board) : bool :=
  all9 (λ i, all9 (λ j, all9 (λ i', all9 (λ j',
    implb (peersb i j i' j' && negb (Z.eqb (get b i j) 0))
          (negb (Z.eqb (get b i j) (get b i' j'))))))).

(** ** Concrete grids *)

(** The completed example grid. *)
Definition example_solution : board :=
  [ [5;3;4;6;7;8;9;1;2];
    [6;7;2;1;9;5;3;4;8];
    [1;9;8;3;4;2;5;6;7];
    [8;5;9;7;6;1;4;2;3];
    [4;2;6;8;5;3;7;9;1];
    [7;1;3;9;2;4;8;5;6];
    [9;6;1;5;3;7;2;8;4];
    [2;8;7;4;1;9;6;3;5];
    [3;4;5;2;8;6;1;7;9] ]%Z.

(** A grid on which the search places digits and has to take them back:
    cell (0,0) accepts 1 and 2, and cell (0,1) then accepts nothing. *)
Definition dead_end : board :=
  [ [0;0;3;4;5;6;7;8;9];
    [0;0;0;0;0;0;0;0;0];
    [0;0;0;0;0;0;0;0;0];
    [0;1;0;0;0;0;0;0;0];
    [0;2;0;0;0;0;0;0;0];
    [0;0;0;0;0;0;0;0;0];
    [0;0;0;0;0;0;0;0;0];
    [0;0;0;0;0;0;0;0;0];
    [0;0;0;0;0;0;0;0;0] ]%Z.

(** A filled grid with two 3s in row 0 (and in column 0 and box 0). *)
Definition filled_conflict : board :=
  [ [3;3;4;6;7;8;9;1;2];
    [6;7;2;1;9;5;3;4;8];
    [1;9;8;3;4;2;5;6;7];
    [8;5;9;7;6;1;4;2;3];
    [4;2;6;8;5;3;7;9;1];
    [7;1;3;9;2;4;8;5;6];
    [9;6;1;5;3;7;2;8;4];
    [2;8;7;4;1;9;6;3;5];
    [3;4;5;2;8;6;1;7;9] ]%Z.

(** [filled_conflict] with its last cell emptied: two 3s in row 0 and one
    empty cell. *)
Definition almost_filled_conflict : board :=
  [ [3;3;4;6;7;8;9;1;2];
    [6;7;2;1;9;5;3;4;8];
    [1;9;8;3;4;2;5;6;7];
    [8;5;9;7;6;1;4;2;3];
    [4;2;6;8;5;3;7;9;1];
    [7;1;3;9;2;4;8;5;6];
    [9;6;1;5;3;7;2;8;4];
    [2;8;7;4;1;9;6;3;5];
    [3;4;5;2;8;6;1;7;0] ]%Z.

(** Row 0 is 1,1,0,...,0 and every other cell is 0. *)
Definition two_ones : board :=
  [ [1;1;0;0;0;0;0;0;0];
    [0;0;0;0;0;0;0;0;0];
    [0;0;0;0;0;0;0;0;0];
    [0;0;0;0;0;0;0;0;0];
    [0;0;0;0;0;0;0;0;0];
    [0;0;0;0;0;0;0;0;0];
    [0;0;0;0;0;0;0;0;0];
    [0;0;0;0;0;0;0;0;0];
    [0;0;0;0;0;0;0;0;0] ]%Z.

(** ** Order of the search *)

(** [b] comes no later than [s] when the cells are read in row-major order:
    the two grids agree, or at the first cell where they differ [b] holds the
    smaller value. *)
Definition lex_le (b s : board) : Prop :=
  (∀ i j, i < 9 → j < 9 → get b i j = get s i j) ∨
  ∃ i j, i < 9 ∧ j < 9 ∧ (get b i j < get s i j)%Z ∧
    ∀ i' j', i' < 9 → j' < 9 → (i' < i ∨ (i' = i ∧ j' < j)) →
      get b i' j' = get s i' j'.

(** ** The user interface: state and handlers *)

(** The board held in the React state: rows of one-character strings, the
    empty string for an empty cell.  Strings are sequences of 8-bit
    characters here; JavaScript compares strings by their code units, and
    the comparisons with ['1'] and ['9'] below are decided the same way. *)
Abbreviation cells := (list (list string)).

(** [Array(9).fill().map(() => Array(9).fill(''))] *)
Definition blank_board : cells := replicate 9 (replicate 9 ""%string).

(** The two pieces of state of the component. *)
Record ui : Type := UI { ui_board : cells; isLoading : bool }.

(** The state after the first render. *)
Definition initial : ui := UI blank_board false.

(** [value === '' || (value >= '1' && value <= '9')], on strings. *)
Definition allowed (value : string) : bool :=
  String.eqb value "" || (String.leb "1" value && String.leb value "9").

(** [handleCellChange].  The copy [[...board]] shares its rows with
    [board], so the assignment also changes the row of the old array; the
    state after [setBoard] is the one given here.  A missing row makes the
    assignment throw.  The result is [None] where the row exists and is too
    short: JavaScript would then grow the row, possibly with holes, which a
    list of strings cannot hold; the handler is only attached to inputs
    rendered for existing cells. *)
Definition handleCellChange (st : ui) (row col : nat) (value : string)
  : option (exn ui) :=
  if allowed value then
    match ui_board st !! row with
    | None => Some TypeError
    | Some r =>
        if decide (col < length r)
        then Some (Val (UI (<[row := <[col := value]> r]> (ui_board st))
                           (isLoading st)))
        else None
    end
  else Some (Val st).

(** [handleClear] *)
Definition handleClear (st : ui) : ui := UI blank_board (isLoading st).

(** The table of [loadExample]. *)
Definition example_strings : cells :=
  [ ["5"; "3"; ""; ""; "7"; ""; ""; ""; ""];
    ["6"; ""; ""; "1"; "9"; "5"; ""; ""; ""];
    [""; "9"; "8"; ""; ""; ""; ""; "6"; ""];
    ["8"; ""; ""; ""; "6"; ""; ""; ""; "3"];
    ["4"; ""; ""; "8"; ""; "3"; ""; ""; "1"];
    ["7"; ""; ""; ""; "2"; ""; ""; ""; "6"];
    [""; "6"; ""; ""; ""; ""; "2"; "8"; ""];
    [""; ""; ""; "4"; "1"; "9"; ""; ""; "5"];
    [""; ""; ""; ""; "8"; ""; ""; "7"; "9"] ]%string.

(** [loadExample] *)
Definition loadExample (st : ui) : ui := UI example_strings (isLoading st).

(** [cell => cell === '' ? 0 : parseInt(cell)]; the built-in [parseInt] is
    a parameter. *)
Definition to_number (parseInt : string → Z) (cell : string) : Z :=
  if String.eqb cell "" then 0%Z else parseInt cell.

(** [board.map(row => row.map(cell => cell === '' ? 0 : parseInt(cell)))] *)
Definition to_numbers (parseInt : string → Z) (b : cells) : board :=
  (λ row : list string, to_number parseInt <$> row) <$> b.

(** [numberBoard.map(row => row.map(cell => cell.toString()))]; the
    built-in [toString] of numbers is a parameter. *)
Definition to_strings (toString : Z → string) (nb : board) : cells :=
  (λ row : list Z, toString <$> row) <$> nb.

(** [handleSolve], the part that runs at the click: the loading flag is
    set and [numberBoard] is built for the callback. *)
Definition handleSolve (parseInt : string → Z) (st : ui) : ui * board :=
  (UI (ui_board st) true, to_numbers parseInt (ui_board st)).

(** The callback [handleSolve] passes to [setTimeout], run on the state
    [st] of that moment.  [None]: the fuel of the search ran out.
    [Some TypeError]: the search threw, no state is set.  Otherwise the new
    state and whether [alert] was called. *)
Definition solve_timeout (toString : Z → string) (fuel : nat)
    (numberBoard : board) (st : ui) : option (exn (ui * bool)) :=
  match solveSudoku fuel numberBoard with
  | None => None
  | Some (TypeError, _) => Some TypeError
  | Some (Val true, nb) => Some (Val (UI (to_strings toString nb) false, false))
  | Some (Val false, _) => Some (Val (UI (ui_board st) false, true))
  end.

(** The heavy lines of the rendered grid:
    [rowIndex % 3 === 2 && rowIndex !== 8] under a cell and
    [colIndex % 3 === 2 && colIndex !== 8] to its right. *)
Definition heavy_line (index : nat) : bool :=
  Nat.eqb (index mod 3) 2 && negb (Nat.eqb index 8).

(** ** Vocabulary for the user interface *)

(** The character and the one-character string of the digit [d]. *)
Definition digit_ascii (d : Z) : Ascii.ascii :=
  Ascii.ascii_of_N (Z.to_N (48 + d)).

Definition digit_string (d : Z) : string := String (digit_ascii d) "".

(** A cell is empty or holds one digit 1..9. *)
Definition clean_cell (c : string) : Prop :=
  c = ""%string ∨ ∃ d, (1 ≤ d ≤ 9)%Z ∧ c = digit_string d.

(** Nine rows of nine such cells. *)
Definition ui_ok (b : cells) : Prop :=
  length b = 9 ∧ Forall (λ r, length r = 9 ∧ Forall clean_cell r) b.

(** The string in cell [(i, j)], if the cell exists. *)
Definition cell_at (b : cells) (i j : nat) : option string :=
  b !! i ≫= λ r, r !! j.

Definition clean_cellb (c : string) : bool :=
  String.eqb c "" ||
  existsb (λ d, String.eqb c (digit_string d)) digits.

Definition ui_okb (b : cells) : bool :=
  Nat.eqb (length b) 9 &&
  forallb (λ r, Nat.eqb (length r) 9 && forallb clean_cellb r) b.

(** A function that agrees with [parseInt] on the cells of a board that is
    [ui_ok]; it stands for the built-in in the examples, as [digit_string]
    does for [toString]. *)
Definition parseInt_digit (s : string) : Z :=
  match s with
  | String c _ => (Z.of_N (Ascii.N_of_ascii c) - 48)%Z
  | EmptyString => 0%Z
  end.

(** The grid with every cell empty. *)
Definition empty_grid : board := replicate 9 (replicate 9 0%Z).

(** The grid [solveSudoku] builds from the empty grid. *)
Definition first_grid : board :=
  [ [1;2;3;4;5;6;7;8;9];
    [4;5;6;7;8;9;1;2;3];
    [7;8;9;1;2;3;4;5;6];
    [2;1;4;3;6;5;8;9;7];
    [3;6;5;8;9;7;2;1;4];
    [8;9;7;2;1;4;3;6;5];
    [5;3;1;6;4;2;9;7;8];
    [6;4;2;9;7;8;5;3;1];
    [9;7;8;5;3;1;6;4;2] ]%Z.

(** ** Loops *)

Section for_range.
  Context {R : Type}.
  Implicit Types (body : nat → exn (option R)).

Lemma for_range_None lo n body :
  for_range lo n body = Val None ↔
  ∀ i, lo ≤ i < lo + n → body i = Val None.
Proof.
  revert lo. induction n as [|n IH]; intros lo; simpl.
  - split; [intros _ i Hi; lia | done].
  - split.
    + intros H i Hi. destruct (body lo) as [[r|]|] eqn:E; try done.
      destruct (decide (i = lo)) as [->|]; [done|].
      apply (proj1 (IH (S lo)) H). lia.
    + intros H. rewrite (H lo) by lia. apply IH. intros i Hi. apply H. lia.
Qed.

Lemma for_range_Some lo n body r :
  for_range lo n body = Val (Some r) ↔
  ∃ i, lo ≤ i < lo + n ∧ body i = Val (Some r) ∧
       ∀ k, lo ≤ k < i → body k = Val None.
Proof.
  revert lo. induction n as [|n IH]; intros lo; simpl.
  - split; [done | intros (i & Hi & _); lia].
  - split.
    + intros H. destruct (body lo) as [[r'|]|] eqn:E; try done.
      * exists lo. split; [lia|]. split; [congruence|]. intros k Hk. lia.
      * apply IH in H as (i & Hi & Hb & Hk). exists i.
        split; [lia|]. split; [done|]. intros k Hk'.
        destruct (decide (k = lo)) as [->|]; [done|]. apply Hk. lia.
    + intros (i & Hi & Hb & Hk).
      destruct (decide (i = lo)) as [->|Hne].
      * by rewrite Hb.
      * rewrite (Hk lo) by lia. apply IH. exists i.
        split; [lia|]. split; [done|]. intros k Hk'. apply Hk. lia.
Qed.

Lemma for_range_no_throw lo n body :
  (∀ i, lo ≤ i < lo + n → body i ≠ TypeError) →
  for_range lo n body ≠ TypeError.
Proof.
  revert lo. induction n as [|n IH]; intros lo H; simpl; [done|].
  destruct (body lo) as [[r|]|] eqn:E; [done| |].
  - apply IH. intros i Hi. apply H. lia.
  - exfalso. apply (H lo); [lia | done].
Qed.
End for_range.

(** ** Reading and writing cells *)

Lemma index2_get b i j v : index2 b i j = Val (Some v) → get b i j = v.
Proof.
  unfold index2, get. destruct (b !! i) as [r|]; simpl; [|done].
  intros [= ->]. done.
Qed.

Lemma shape9_index2 b i j :
  shape9 b → i < 9 → j < 9 → index2 b i j = Val (Some (get b i j)).
Proof.
  intros [Hlen Hrows] Hi Hj. unfold index2, get.
  destruct (b !! i) as [r|] eqn:Er.
  - simpl. rewrite Forall_lookup in Hrows. specialize (Hrows _ _ Er).
    destruct (r !! j) as [v|] eqn:Ev; [done|].
    apply lookup_ge_None in Ev. lia.
  - apply lookup_ge_None in Er. lia.
Qed.

Lemma index2_store_eq b row col v0 v :
  index2 b row col = Val (Some v0) →
  index2 (store b row col v) row col = Val (Some v).
Proof.
  unfold index2, store. rewrite list_lookup_alter_eq.
  destruct (b !! row) as [r|]; simpl; [|done]. intros [= Hr].
  rewrite list_lookup_insert_eq; [done|]. by eapply lookup_lt_Some.
Qed.


Lemma store_store b row col v w :
  store (store b row col v) row col w = store b row col w.
Proof.
  unfold store. rewrite list_alter_alter_eq. apply list_alter_ext; [|done].
  intros r _. simpl. apply list_insert_insert_eq.
Qed.

Lemma store_same b row col v :
  index2 b row col = Val (Some v) → store b row col v = b.
Proof.
  unfold index2, store. destruct (b !! row) as [r|] eqn:Er; [|done].
  intros [= Hr]. apply list_eq. intros i.
  destruct (decide (row = i)) as [->|Hne].
  - rewrite list_lookup_alter_eq, Er. simpl. by rewrite list_insert_id.
  - by rewrite list_lookup_alter_ne.
Qed.

Lemma store_undo b row col v :
  index2 b row col = Val (Some 0%Z) →
  store (store b row col v) row col 0 = b.
Proof. intros H. rewrite store_store. by apply store_same. Qed.

Lemma shape9_store b row col v : shape9 b → shape9 (store b row col v).
Proof.
  intros [Hlen Hrows]. split; unfold store.
  - by rewrite length_alter.
  - rewrite Forall_lookup in *. intros i r.
    destruct (decide (row = i)) as [->|Hne].
    + rewrite list_lookup_alter_eq. destruct (b !! i) as [r0|] eqn:E; [|done].
      intros [= <-]. rewrite length_insert. eauto.
    + rewrite list_lookup_alter_ne by done. eauto.
Qed.

Lemma get_store_eq b row col v :
  shape9 b → row < 9 → col < 9 → get (store b row col v) row col = v.
Proof.
  intros Hs Hr Hc. apply index2_get.
  eapply index2_store_eq. by apply shape9_index2.
Qed.

Lemma get_store_ne b row col v i j :
  (i, j) ≠ (row, col) → get (store b row col v) i j = get b i j.
Proof.
  intros Hne. unfold get, store.
  destruct (decide (row = i)) as [->|Hr].
  - rewrite list_lookup_alter_eq. destruct (b !! i) as [r|]; simpl; [|done].
    rewrite list_lookup_insert_ne; [done|]. congruence.
  - by rewrite list_lookup_alter_ne.
Qed.

Lemma board_ext b b' :
  shape9 b → shape9 b' →
  (∀ i j, i < 9 → j < 9 → get b i j = get b' i j) → b = b'.
Proof.
  intros [Hl Hr] [Hl' Hr'] H. apply list_eq. intros i.
  destruct (decide (i < 9)) as [Hi|Hi].
  2:{ rewrite !(proj2 (lookup_ge_None _ _)); [done | lia | lia]. }
  destruct (b !! i) as [r|] eqn:E; [|apply lookup_ge_None in E; lia].
  destruct (b' !! i) as [r'|] eqn:E'; [|apply lookup_ge_None in E'; lia].
  f_equal. rewrite Forall_lookup in Hr, Hr'.
  specialize (Hr _ _ E). specialize (Hr' _ _ E').
  apply list_eq. intros j.
  destruct (decide (j < 9)) as [Hj|Hj].
  2:{ rewrite !(proj2 (lookup_ge_None _ _)); [done | lia | lia]. }
  specialize (H i j Hi Hj). unfold get in H. rewrite E, E' in H. simpl in H.
  destruct (r !! j) as [x|] eqn:Ex; [|apply lookup_ge_None in Ex; lia].
  destruct (r' !! j) as [x'|] eqn:Ex'; [|apply lookup_ge_None in Ex'; lia].
  simpl in H. by subst.
Qed.

(** Storing a digit over a zero removes one zero. *)
Lemma zeros_row_insert r col v :
  r !! col = Some 0%Z → v ≠ 0%Z →
  S (zeros_row (<[col := v]> r)) = zeros_row r.
Proof.
  revert col. induction r as [|x r IH]; intros [|col]; simpl; try done.
  - intros [= ->] Hv. unfold zeros_row. rewrite !filter_cons.
    destruct (decide (v = 0%Z)); [done|]. by rewrite decide_True.
  - intros Hc Hv. specialize (IH _ Hc Hv). unfold zeros_row in *.
    rewrite !filter_cons. destruct (decide (x = 0%Z)); simpl; lia.
Qed.

Lemma zeros_store b row col v :
  index2 b row col = Val (Some 0%Z) → v ≠ 0%Z →
  S (zeros (store b row col v)) = zeros b.
Proof.
  unfold index2, store, zeros. revert row.
  induction b as [|r b IH]; intros [|row]; simpl; try done.
  - intros [= Hr] Hv. pose proof (zeros_row_insert r col v Hr Hv). lia.
  - intros H Hv. specialize (IH _ H Hv). unfold alter in IH. lia.
Qed.

(** ** The guarded return [if (board[i][j] === num) return r] *)

Lemma return_if_eq_Some {R} b i j num (r r' : R) :
  return_if_eq b i j num r = Val (Some r') ↔
  index2 b i j = Val (Some num) ∧ r' = r.
Proof.
  unfold return_if_eq. destruct (index2 b i j) as [[v|]|]; simpl.
  - destruct (Z.eqb_spec v num) as [->|Hne]; split.
    + by intros [= ->].
    + by intros [_ ->].
    + done.
    + intros [[= ?] _]. done.
  - split; [done | by intros [? _]].
  - split; [done | by intros [? _]].
Qed.

Lemma return_if_eq_None {R} b i j num (r : R) :
  return_if_eq b i j num r = Val None ↔
  ∃ v, index2 b i j = Val v ∧ v ≠ Some num.
Proof.
  unfold return_if_eq. destruct (index2 b i j) as [[v|]|]; simpl.
  - destruct (Z.eqb_spec v num) as [->|Hne]; split.
    + done.
    + intros (v & [= <-] & Hv). done.
    + intros _. exists (Some v). split; [done | congruence].
    + done.
  - split; [|done]. intros _. by exists None.
  - split; [done | by intros (v & ? & _)].
Qed.

Lemma return_if_eq_shape9 {R} b i j num (r : R) :
  shape9 b → i < 9 → j < 9 →
  return_if_eq b i j num r =
    Val (if Z.eqb (get b i j) num then Some r else None).
Proof.
  intros Hs Hi Hj. unfold return_if_eq. by rewrite shape9_index2.
Qed.

Lemma return_if_eq_None_shape9 {R} b i j num (r : R) :
  shape9 b → i < 9 → j < 9 →
  return_if_eq b i j num r = Val None ↔ get b i j ≠ num.
Proof.
  intros Hs Hi Hj. rewrite return_if_eq_shape9 by done.
  destruct (Z.eqb_spec (get b i j) num); split; congruence.
Qed.

(** A loop whose body either falls through or returns the fixed value
    [r0] does the same as a whole. *)
Lemma for_range_cases {R} lo n (body : nat → exn (option R)) r0 :
  (∀ i, lo ≤ i < lo + n → body i = Val None ∨ body i = Val (Some r0)) →
  for_range lo n body = Val None ∨ for_range lo n body = Val (Some r0).
Proof.
  revert lo. induction n as [|n IH]; intros lo H; simpl; [by left|].
  destruct (H lo) as [-> | ->]; [lia | | by right].
  apply IH. intros i Hi. apply H. lia.
Qed.

Lemma return_if_eq_cases {R} b i j num (r : R) :
  shape9 b → i < 9 → j < 9 →
  return_if_eq b i j num r = Val None ∨
  return_if_eq b i j num r = Val (Some r).
Proof.
  intros Hs Hi Hj. rewrite return_if_eq_shape9 by done.
  destruct (Z.eqb (get b i j) num); auto.
Qed.

(** ** [isValid] *)

Lemma isValid_shape9 b row col num :
  shape9 b → row < 9 → col < 9 →
  ∃ r, isValid b row col num = Val r ∧
       (r = true ↔
        absent_row b row num ∧ absent_col b col num ∧
        absent_box b row col num).
Proof.
  intros Hs Hr Hc. unfold isValid.
  set (rows := for_range 0 9 (λ j, return_if_eq b row j num false)).
  set (cols := for_range 0 9 (λ i, return_if_eq b i col num false)).
  set (box := for_range (row / 3 * 3) 3 (λ i,
    for_range (col / 3 * 3) 3 (λ j, return_if_eq b i j num false))).
  assert (Hrows : rows = Val None ↔ absent_row b row num).
  { unfold rows. rewrite for_range_None. unfold absent_row.
    split; intros H j Hj.
    - apply (return_if_eq_None_shape9 b row j num false); [done..|].
      apply H. lia.
    - apply return_if_eq_None_shape9; [done | done | lia |]. apply H. lia. }
  assert (Hcols : cols = Val None ↔ absent_col b col num).
  { unfold cols. rewrite for_range_None. unfold absent_col.
    split; intros H i Hi.
    - apply (return_if_eq_None_shape9 b i col num false); [done..|].
      apply H. lia.
    - apply return_if_eq_None_shape9; [done | lia | done |]. apply H. lia. }
  assert (Hbox : box = Val None ↔ absent_box b row col num).
  { unfold box. rewrite for_range_None. unfold absent_box.
    split.
    - intros H i j Hi Hj Hbi Hbj. specialize (H i ltac:(dlia)).
      rewrite for_range_None in H.
      apply (return_if_eq_None_shape9 b i j num false); [done..|].
      apply H. dlia.
    - intros H i Hi. apply for_range_None. intros j Hj.
      apply return_if_eq_None_shape9; [done|dlia|dlia|]. apply H; dlia. }
  assert (Crows : rows = Val None ∨ rows = Val (Some false)).
  { apply for_range_cases. intros j Hj.
    apply return_if_eq_cases; [done | done | lia]. }
  assert (Ccols : cols = Val None ∨ cols = Val (Some false)).
  { apply for_range_cases. intros i Hi.
    apply return_if_eq_cases; [done | lia | done]. }
  assert (Cbox : box = Val None ∨ box = Val (Some false)).
  { apply for_range_cases. intros i Hi. apply for_range_cases. intros j Hj.
    apply return_if_eq_cases; [done | dlia | dlia]. }
  destruct Crows as [Er|Er]; rewrite Er in *; simpl.
  2:{ exists false. split; [done|]. split; [done|].
      intros (H & _ & _). apply Hrows in H. done. }
  destruct Ccols as [Ec|Ec]; rewrite Ec in *; simpl.
  2:{ exists false. split; [done|]. split; [done|].
      intros (_ & H & _). apply Hcols in H. done. }
  destruct Cbox as [Eb|Eb]; rewrite Eb in *; simpl.
  2:{ exists false. split; [done|]. split; [done|].
      intros (_ & _ & H). apply Hbox in H. done. }
  exists true. split; [done|]. split; [|done]. intros _.
  split; [by apply Hrows|]. split; [by apply Hcols | by apply Hbox].
Qed.

(** What an accepted candidate means for the peers of the cell. *)
Lemma isValid_true_peers b row col num i j :
  shape9 b → row < 9 → col < 9 → i < 9 → j < 9 →
  isValid b row col num = Val true →
  (i = row ∨ j = col ∨ (i / 3 = row / 3 ∧ j / 3 = col / 3)) →
  get b i j ≠ num.
Proof.
  intros Hs Hr Hc Hi Hj Hv Hp.
  destruct (isValid_shape9 b row col num Hs Hr Hc) as (r & Er & Hiff).
  rewrite Er in Hv. injection Hv as ->.
  destruct (proj1 Hiff eq_refl) as (Hrow & Hcol & Hbox).
  destruct Hp as [-> | [-> | [Hbi Hbj]]].
  - by apply Hrow.
  - by apply Hcol.
  - by apply Hbox.
Qed.

(** ** [findEmptyCell] *)

Lemma findEmptyCell_scan b : findEmptyCell b = scan b ;;; Val None.
Proof. reflexivity. Qed.

Lemma scan_row_Some b i r :
  scan_row b i = Val (Some r) ↔
  ∃ j, j < 9 ∧ r = Some (i, j) ∧ index2 b i j = Val (Some 0%Z) ∧
       ∀ k, k < j → ∃ v, index2 b i k = Val v ∧ v ≠ Some 0%Z.
Proof.
  unfold scan_row. rewrite for_range_Some. split.
  - intros (j & Hj & Hb & Hk). apply return_if_eq_Some in Hb as [Hb ->].
    exists j. split; [lia|]. split; [done|]. split; [done|].
    intros k Hk'. apply (return_if_eq_None b i k 0%Z (Some (i, k))).
    apply Hk. lia.
  - intros (j & Hj & -> & Hb & Hk). exists j. split; [lia|].
    split; [by apply return_if_eq_Some|].
    intros k Hk'. apply return_if_eq_None. apply Hk. lia.
Qed.

Lemma scan_row_None b i :
  scan_row b i = Val None ↔
  ∀ j, j < 9 → ∃ v, index2 b i j = Val v ∧ v ≠ Some 0%Z.
Proof.
  unfold scan_row. rewrite for_range_None. split.
  - intros H j Hj. apply (return_if_eq_None b i j 0%Z (Some (i, j))).
    apply H. lia.
  - intros H j Hj. apply return_if_eq_None. apply H. lia.
Qed.

Lemma scan_Some b r :
  scan b = Val (Some r) ↔
  ∃ i, i < 9 ∧ scan_row b i = Val (Some r) ∧
       ∀ k, k < i → scan_row b k = Val None.
Proof.
  unfold scan. rewrite for_range_Some. split.
  - intros (i & Hi & Hb & Hk). exists i. split; [lia|]. split; [done|].
    intros k Hk'. apply Hk. lia.
  - intros (i & Hi & Hb & Hk). exists i. split; [lia|]. split; [done|].
    intros k Hk'. apply Hk. lia.
Qed.

(** Without any assumption on the board: a cell reported by
    [findEmptyCell] exists, lies in the 9x9 range and holds 0. *)
Lemma findEmptyCell_Some b row col :
  findEmptyCell b = Val (Some (row, col)) →
  row < 9 ∧ col < 9 ∧ index2 b row col = Val (Some 0%Z).
Proof.
  rewrite findEmptyCell_scan. destruct (scan b) as [[r|]|] eqn:E; simpl;
    [|done|done].
  intros [= ->]. apply scan_Some in E as (i & Hi & Hrow & _).
  apply scan_row_Some in Hrow as (j & Hj & [= -> ->] & Hz & _). done.
Qed.

Lemma scan_not_Some_None b : scan b ≠ Val (Some None).
Proof.
  intros E. apply scan_Some in E as (i & _ & Hrow & _).
  apply scan_row_Some in Hrow as (j & _ & [=] & _).
Qed.

Lemma findEmptyCell_first_zero b i j :
  shape9 b → findEmptyCell b = Val (Some (i, j)) ↔ first_zero b i j.
Proof.
  intros Hs. rewrite findEmptyCell_scan. split.
  - destruct (scan b) as [[r|]|] eqn:E; simpl; [|done|done].
    intros [= ->]. apply scan_Some in E as (i0 & Hi & Hrow & Hbefore).
    apply scan_row_Some in Hrow as (j0 & Hj & [= -> ->] & Hz & Hleft).
    split; [done|]. split; [done|]. split; [by apply index2_get|].
    intros i' j' Hi' Hj' [Hlt | [-> Hlt]].
    + specialize (Hbefore i' Hlt).
      destruct (proj1 (scan_row_None b i') Hbefore j' Hj') as (v & Hv & Hne).
      rewrite shape9_index2 in Hv by done. congruence.
    + destruct (Hleft j' Hlt) as (v & Hv & Hne).
      rewrite shape9_index2 in Hv by done. congruence.
  - intros (Hi & Hj & Hz & Hfirst).
    assert (E : scan b = Val (Some (Some (i, j)))); [|by rewrite E].
    apply scan_Some. exists i. split; [done|]. split.
    + apply scan_row_Some. exists j. split; [done|]. split; [done|].
      split; [by rewrite shape9_index2, Hz|].
      intros k Hk. exists (Some (get b i k)).
      split; [apply shape9_index2; [done | done | lia]|].
      intros [= H0]. apply (Hfirst i k); [done | lia | right; done | done].
    + intros k Hk. apply scan_row_None. intros j' Hj'.
      exists (Some (get b k j')).
      split; [apply shape9_index2; [done | lia | done]|].
      intros [= H0]. apply (Hfirst k j'); [lia | done | left; done | done].
Qed.

Lemma findEmptyCell_None b :
  shape9 b → findEmptyCell b = Val None ↔ no_zeros b.
Proof.
  intros Hs. rewrite findEmptyCell_scan. split.
  - destruct (scan b) as [[[p|]|]|] eqn:E; simpl; try done.
    + exfalso. by apply (scan_not_Some_None b).
    + intros _ i j Hi Hj Hz. unfold scan in E.
      rewrite for_range_None in E. specialize (E i ltac:(lia)).
      destruct (proj1 (scan_row_None b i) E j Hj) as (v & Hv & Hne).
      rewrite shape9_index2 in Hv by done. congruence.
  - intros Hnz. assert (E : scan b = Val None); [|by rewrite E].
    unfold scan. apply for_range_None. intros i Hi.
    apply scan_row_None. intros j Hj. exists (Some (get b i j)).
    split; [apply shape9_index2; [done | lia | done]|].
    intros [= H0]. apply (Hnz i j); [lia | done | done].
Qed.

Lemma findEmptyCell_no_throw b : shape9 b → findEmptyCell b ≠ TypeError.
Proof.
  intros Hs. rewrite findEmptyCell_scan.
  destruct (scan b) as [[r|]|] eqn:E; simpl; [done | done |].
  exfalso. revert E. apply for_range_no_throw. intros i Hi.
  apply for_range_no_throw. intros j Hj.
  rewrite return_if_eq_shape9; [done | done | lia | lia].
Qed.

(** ** The candidate loop and the recursion *)

Section try_candidates.
  Variable rec : board → outcome.
  Variables row col : nat.

(** The loop only ever returns [true]. *)
Lemma try_candidates_returns_true n num b r b' :
  try_candidates rec row col n num b = Some (Val (Some r), b') → r = true.
Proof.
  revert num b. induction n as [|n IH]; intros num b; simpl; [done|].
  destruct (isValid b row col num) as [[|]|]; [| by apply IH | done].
  destruct (rec (store b row col num)) as [[[[|]|] b2]|]; try done.
  - by intros [= <- _].
  - apply IH.
Qed.

Hypothesis rec_restores : restores rec.

(** The loop falls through with the board unchanged. *)
Lemma try_candidates_restores n num b b' :
  index2 b row col = Val (Some 0%Z) →
  try_candidates rec row col n num b = Some (Val None, b') → b' = b.
Proof.
  intros Hz. revert num. induction n as [|n IH]; intros num; simpl.
  - by intros [= <-].
  - destruct (isValid b row col num) as [[|]|]; [| by apply IH | done].
    destruct (rec (store b row col num)) as [[[[|]|] b2]|] eqn:E;
      try done.
    apply rec_restores in E as ->. rewrite store_undo by done. apply IH.
Qed.

(** When the loop returns [true], some candidate was accepted by
    [isValid] on the entry board and the recursive call on the board with
    that candidate stored succeeded. *)
Lemma try_candidates_inv_true n num b b' :
  index2 b row col = Val (Some 0%Z) →
  try_candidates rec row col n num b = Some (Val (Some true), b') →
  ∃ num', (num ≤ num' < num + Z.of_nat n)%Z ∧
          isValid b row col num' = Val true ∧
          rec (store b row col num') = Some (Val true, b').
Proof.
  intros Hz. revert num. induction n as [|n IH]; intros num; simpl;
    [done|].
  destruct (isValid b row col num) as [[|]|] eqn:Ev; [| |done].
  - destruct (rec (store b row col num)) as [[[[|]|] b2]|] eqn:E;
      try done.
    + intros [= <-]. exists num. split; [lia|]. split; done.
    + apply rec_restores in E as ->. rewrite store_undo by done.
      intros H. apply IH in H as (num' & Hn & H). exists num'.
      split; [lia | done].
  - intros H. apply IH in H as (num' & Hn & H). exists num'.
    split; [lia | done].
Qed.

(** When the loop falls through, every candidate was either rejected by
    [isValid] or led to a failing recursive call. *)
Lemma try_candidates_inv_false n num b b' :
  index2 b row col = Val (Some 0%Z) →
  try_candidates rec row col n num b = Some (Val None, b') →
  ∀ num', (num ≤ num' < num + Z.of_nat n)%Z →
    isValid b row col num' = Val false ∨
    (isValid b row col num' = Val true ∧
     rec (store b row col num') =
       Some (Val false, store b row col num')).
Proof.
  intros Hz. revert num. induction n as [|n IH]; intros num; simpl;
    [intros; lia|].
  destruct (isValid b row col num) as [[|]|] eqn:Ev; [| |done].
  - destruct (rec (store b row col num)) as [[[[|]|] b2]|] eqn:E;
      try done.
    pose proof (rec_restores _ _ E) as ->. rewrite store_undo by done.
    intros H num' Hn. destruct (decide (num' = num)) as [->|Hne].
    + right. done.
    + apply (IH _ H). lia.
  - intros H num' Hn. destruct (decide (num' = num)) as [->|Hne].
    + by left.
    + apply (IH _ H). lia.
Qed.
End try_candidates.

Lemma solveSudoku_S fuel b :
  solveSudoku (S fuel) b =
    match findEmptyCell b with
    | TypeError => Some (TypeError, b)
    | Val None => Some (Val true, b)
    | Val (Some (row, col)) =>
        match try_candidates (solveSudoku fuel) row col 9 1%Z b with
        | None => None
        | Some (TypeError, b') => Some (TypeError, b')
        | Some (Val (Some r), b') => Some (Val r, b')
        | Some (Val None, b') => Some (Val false, b')
        end
    end.
Proof. reflexivity. Qed.

(** A failing call leaves the board as it found it, for any board
    whatsoever. *)
Lemma solveSudoku_restores fuel : restores (solveSudoku fuel).
Proof.
  induction fuel as [|fuel IH]; intros b b'; [done|].
  rewrite solveSudoku_S.
  destruct (findEmptyCell b) as [[[row col]|]|] eqn:Ef; [|done|done].
  apply findEmptyCell_Some in Ef as (_ & _ & Hz).
  destruct (try_candidates (solveSudoku fuel) row col 9 1 b)
    as [[[[r|]|] b2]|] eqn:Et; try done.
  - apply try_candidates_returns_true in Et as ->. done.
  - intros [= <-]. by eapply try_candidates_restores.
Qed.

(** More fuel does not change a result. *)
Lemma try_candidates_mono (rec rec' : board → outcome) row col n num b o :
  (∀ x y, rec x = Some y → rec' x = Some y) →
  try_candidates rec row col n num b = Some o →
  try_candidates rec' row col n num b = Some o.
Proof.
  intros Hrec. revert num b. induction n as [|n IH]; intros num b; simpl;
    [done|].
  destruct (isValid b row col num) as [[|]|]; [| by apply IH | done].
  destruct (rec (store b row col num)) as [[[[|]|] b2]|] eqn:E; try done.
  - by rewrite (Hrec _ _ E).
  - rewrite (Hrec _ _ E). apply IH.
  - by rewrite (Hrec _ _ E).
Qed.

Lemma solveSudoku_fuel_S fuel b o :
  solveSudoku fuel b = Some o → solveSudoku (S fuel) b = Some o.
Proof.
  revert b o. induction fuel as [|fuel IH]; intros b o; [done|].
  rewrite (solveSudoku_S (S fuel)), (solveSudoku_S fuel).
  destruct (findEmptyCell b) as [[[row col]|]|]; [|done|done].
  destruct (try_candidates (solveSudoku fuel) row col 9 1 b) as [t|] eqn:Et;
    [|done].
  by rewrite (try_candidates_mono _ (solveSudoku (S fuel)) _ _ _ _ _ _ IH Et).
Qed.

Lemma solveSudoku_fuel_mono fuel fuel' b o :
  fuel ≤ fuel' → solveSudoku fuel b = Some o → solveSudoku fuel' b = Some o.
Proof.
  induction 1 as [|fuel' _ IH]; [done|].
  intros H. apply solveSudoku_fuel_S. by apply IH.
Qed.

(** ** Termination *)

Lemma try_candidates_total rec row col f n num b :
  restores rec →
  (∀ x, zeros x < f → ∃ o, rec x = Some o) →
  index2 b row col = Val (Some 0%Z) → zeros b ≤ f → (0 < num)%Z →
  ∃ o, try_candidates rec row col n num b = Some o.
Proof.
  intros Hres Hrec Hz Hf. revert num.
  induction n as [|n IH]; intros num Hnum; simpl; [eauto|].
  destruct (isValid b row col num) as [[|]|]; [| apply IH; lia | eauto].
  destruct (Hrec (store b row col num)) as [[[[|]|] b2] E].
  { pose proof (zeros_store b row col num Hz). lia. }
  - rewrite E. eauto.
  - rewrite E. apply Hres in E as ->. rewrite store_undo by done.
    apply IH. lia.
  - rewrite E. eauto.
Qed.

Lemma solveSudoku_total fuel b :
  zeros b < fuel → ∃ o, solveSudoku fuel b = Some o.
Proof.
  revert b. induction fuel as [|fuel IH]; intros b Hf; [lia|].
  rewrite solveSudoku_S.
  destruct (findEmptyCell b) as [[[row col]|]|] eqn:Ef; [|eauto|eauto].
  apply findEmptyCell_Some in Ef as (_ & _ & Hz).
  destruct (try_candidates_total (solveSudoku fuel) row col fuel 9 1 b)
    as [[[[r|]|] b2] ->]; eauto using solveSudoku_restores.
  - lia.
  - lia.
Qed.

(** ** Boards of nine rows of nine cells *)

Lemma try_candidates_shape9 rec row col n num b res b' :
  (∀ x r y, shape9 x → rec x = Some (r, y) → r ≠ TypeError ∧ shape9 y) →
  shape9 b → row < 9 → col < 9 →
  try_candidates rec row col n num b = Some (res, b') →
  res ≠ TypeError ∧ shape9 b'.
Proof.
  intros Hrec Hs Hr Hc. revert num b Hs.
  induction n as [|n IH]; intros num b Hs; simpl.
  - by intros [= <- <-].
  - destruct (isValid_shape9 b row col num Hs Hr Hc) as ([|] & -> & _);
      [|by apply IH].
    destruct (rec (store b row col num)) as [[r b2]|] eqn:E; [|done].
    apply Hrec in E as [Hne Hs2]; [|by apply shape9_store].
    destruct r as [[|]|]; [| |done].
    + by intros [= <- <-].
    + apply IH. by apply shape9_store.
Qed.

Lemma solveSudoku_shape9 fuel b r b' :
  shape9 b → solveSudoku fuel b = Some (r, b') →
  r ≠ TypeError ∧ shape9 b'.
Proof.
  revert b r b'. induction fuel as [|fuel IH]; intros b r b' Hs; [done|].
  rewrite solveSudoku_S.
  pose proof (findEmptyCell_no_throw b Hs) as Hnt.
  destruct (findEmptyCell b) as [[[row col]|]|] eqn:Ef; [| |done].
  - apply findEmptyCell_Some in Ef as (Hr & Hc & _).
    destruct (try_candidates (solveSudoku fuel) row col 9 1 b)
      as [[res b2]|] eqn:Et; [|done].
    apply try_candidates_shape9 in Et as [Hne Hs2]; [|done..].
    destruct res as [[r'|]|]; [| |done].
    + by intros [= <- <-].
    + by intros [= <- <-].
  - by intros [= <- <-].
Qed.

(** ** What a successful call leaves behind *)

Lemma peers_sym i j i' j' : peers i j i' j' → peers i' j' i j.
Proof.
  unfold peers. intros [Hne H]. split; [congruence|].
  destruct H as [->|[->|[-> ->]]]; auto.
Qed.

Lemma solveSudoku_true_sound fuel b b' :
  shape9 b → solveSudoku fuel b = Some (Val true, b') →
  shape9 b' ∧ no_zeros b' ∧ same_givens b b' ∧ placed_ok b b'.
Proof.
  revert b b'. induction fuel as [|fuel IH]; intros b b' Hs; [done|].
  rewrite solveSudoku_S.
  destruct (findEmptyCell b) as [[[row col]|]|] eqn:Ef; [| |done].
  - pose proof (findEmptyCell_Some _ _ _ Ef) as (Hr & Hc & Hz).
    destruct (try_candidates (solveSudoku fuel) row col 9 1 b)
      as [[[[r|]|] b2]|] eqn:Et; try done.
    pose proof (try_candidates_returns_true _ _ _ _ _ _ _ _ Et) as ->.
    intros [= ->].
    apply try_candidates_inv_true in Et as (num & Hnum & Hv & Hrec);
      [|apply solveSudoku_restores|done].
    apply IH in Hrec as (Hs' & Hnz & Hsame & Hok); [|by apply shape9_store].
    pose proof (index2_get _ _ _ _ Hz) as Hz0.
    assert (Hcell : get b' row col = num).
    { rewrite Hsame; [by apply get_store_eq | done | done |].
      rewrite get_store_eq by done. lia. }
    split; [done|]. split; [done|]. split.
    + intros i j Hi Hj Hne.
      assert ((i, j) ≠ (row, col)) by (intros [= -> ->]; done).
      rewrite <- (get_store_ne b row col num i j) by done.
      apply Hsame; [done | done |]. by rewrite get_store_ne.
    + intros i j Hi Hj Hzero.
      destruct (decide ((i, j) = (row, col))) as [[= -> ->]|Hne].
      * rewrite Hcell. split; [lia|]. intros i' j' Hi' Hj' Hp.
        assert ((i', j') ≠ (row, col)) by (destruct Hp; congruence).
        destruct (decide (get b i' j' = 0%Z)) as [Hz'|Hnz'].
        -- destruct (Hok i' j') as [_ Hdiff]; [done | done | |].
           { by rewrite get_store_ne. }
           rewrite <- Hcell. intros Heq.
           apply (Hdiff row col); [done | done | by apply peers_sym | done].
        -- rewrite Hsame; [|done|done|by rewrite get_store_ne].
           rewrite get_store_ne by done. intros Heq.
           eapply (isValid_true_peers b row col num i' j'); try done.
           destruct Hp as [_ [->|[->|[-> ->]]]]; auto.
      * apply Hok; [done | done |]. by rewrite get_store_ne.
  - intros [= <-]. apply findEmptyCell_None in Ef; [|done].
    split; [done|]. split; [done|]. split; [done|].
    intros i j Hi Hj Hzero. by destruct (Ef i j).
Qed.

(** ** Solved grids *)

(** Nine pairwise different digits are a permutation of 1..9. *)
Lemma nine_digits_permutation (f : nat → Z) :
  (∀ k, k < 9 → (1 ≤ f k ≤ 9)%Z) →
  (∀ k k', k < 9 → k' < 9 → k ≠ k' → f k ≠ f k') →
  f <$> seq 0 9 ≡ₚ digits.
Proof.
  intros Hrange Hdiff. apply submseteq_length_Permutation.
  - apply NoDup_submseteq.
    + apply NoDup_fmap_2_strong; [|apply NoDup_seq].
      intros x y Hx%elem_of_seq Hy%elem_of_seq Heq.
      destruct (decide (x = y)) as [|Hne]; [done|].
      exfalso. apply (Hdiff x y); [lia | lia | done | done].
    + intros x (k & -> & Hk%elem_of_seq)%list_elem_of_fmap.
      specialize (Hrange k ltac:(lia)). apply list_elem_of_In.
      unfold digits. simpl. lia.
  - by rewrite length_fmap, length_seq.
Qed.

Lemma digits_permutation_inv (f : nat → Z) :
  f <$> seq 0 9 ≡ₚ digits →
  (∀ k, k < 9 → (1 ≤ f k ≤ 9)%Z) ∧
  (∀ k k', k < 9 → k' < 9 → k ≠ k' → f k ≠ f k').
Proof.
  intros Hp.
  assert (Hlook : ∀ k, k < 9 → (f <$> seq 0 9) !! k = Some (f k)).
  { intros k Hk. by rewrite list_lookup_fmap, lookup_seq_lt. }
  split.
  - intros k Hk. assert (Hin : f k ∈ digits).
    { rewrite <- Hp. eapply list_elem_of_lookup_2. by apply Hlook. }
    apply list_elem_of_In in Hin. unfold digits in Hin. simpl in Hin. lia.
  - intros k k' Hk Hk' Hne Heq.
    assert (Hnd : NoDup (f <$> seq 0 9)).
    { rewrite Hp. unfold digits. apply NoDup_ListNoDup.
      repeat (constructor; [simpl; lia|]). constructor. }
    rewrite NoDup_alt in Hnd. apply Hne.
    apply (Hnd k k' (f k)); [by apply Hlook|]. rewrite Heq. by apply Hlook.
Qed.

Lemma solved_of_no_conflicts b :
  all_digits b → no_conflicts b → solved b.
Proof.
  intros Hd Hc k Hk. split; [|split].
  - apply nine_digits_permutation.
    + intros j Hj. by apply Hd.
    + intros j j' Hj Hj' Hne. apply Hc; [done..|].
      split; [congruence | auto].
  - apply nine_digits_permutation.
    + intros i Hi. by apply Hd.
    + intros i i' Hi Hi' Hne. apply Hc; [done..|].
      split; [congruence | auto].
  - apply nine_digits_permutation.
    + intros m Hm. apply Hd; dlia.
    + intros m m' Hm Hm' Hne. apply Hc; [dlia..|].
      split; [|right; right; dlia].
      intros Heq. pose proof (f_equal fst Heq) as H1.
      pose proof (f_equal snd Heq) as H2. cbn [fst snd] in H1, H2.
      apply Hne. dlia.
Qed.

Lemma solved_no_conflicts b :
  solved b → all_digits b ∧ no_conflicts b.
Proof.
  intros Hsol. split.
  - intros i j Hi Hj. destruct (Hsol i Hi) as (Hrow & _ & _).
    apply digits_permutation_inv in Hrow as [Hr _]. by apply Hr.
  - intros i j i' j' Hi Hj Hi' Hj' [Hne [<- | [<- | [Hbi Hbj]]]].
    + destruct (Hsol i Hi) as (Hrow & _ & _).
      apply digits_permutation_inv in Hrow as [_ Hr].
      apply (Hr j j'); [done | done | congruence].
    + destruct (Hsol j Hj) as (_ & Hcol & _).
      apply digits_permutation_inv in Hcol as [_ Hr].
      apply (Hr i i'); [done | done | congruence].
    + destruct (Hsol (i / 3 * 3 + j / 3) ltac:(dlia)) as (_ & _ & Hbox).
      apply digits_permutation_inv in Hbox as [_ Hr].
      specialize (Hr (i mod 3 * 3 + j mod 3) (i' mod 3 * 3 + j' mod 3)).
      replace ((i / 3 * 3 + j / 3) / 3 * 3 + (i mod 3 * 3 + j mod 3) / 3)
        with i in Hr by dlia.
      replace ((i / 3 * 3 + j / 3) mod 3 * 3 + (i mod 3 * 3 + j mod 3) mod 3)
        with j in Hr by dlia.
      replace ((i / 3 * 3 + j / 3) / 3 * 3 + (i' mod 3 * 3 + j' mod 3) / 3)
        with i' in Hr by dlia.
      replace ((i / 3 * 3 + j / 3) mod 3 * 3
               + (i' mod 3 * 3 + j' mod 3) mod 3)
        with j' in Hr by dlia.
      apply Hr; [dlia | dlia |].
      intros Heq. apply Hne. f_equal; dlia.
Qed.

(** ** Soundness of the executable checks *)

Lemma all9_true p : all9 p = true ↔ ∀ k, k < 9 → p k = true.
Proof.
  unfold all9. rewrite forallb_forall. split.
  - intros H k Hk. apply H. apply in_seq. lia.
  - intros H k Hk%in_seq. apply H. lia.
Qed.

Lemma shape9b_sound b : shape9b b = true → shape9 b.
Proof.
  unfold shape9b, shape9. intros [Hl Hr]%andb_prop. split.
  - by apply Nat.eqb_eq.
  - apply Forall_forall. intros r Hin.
    rewrite forallb_forall in Hr. apply Nat.eqb_eq. by apply Hr.
Qed.

Lemma in_rangeb_sound b : in_rangeb b = true → in_range b.
Proof.
  unfold in_rangeb, in_range. rewrite forallb_forall. intros H.
  apply Forall_forall. intros r Hr. specialize (H r Hr).
  rewrite forallb_forall in H. apply Forall_forall.
  intros v Hv. specialize (H v Hv). lia.
Qed.

Lemma well_formedb_sound b :
  shape9b b && in_rangeb b = true → well_formed b.
Proof.
  intros [H1 H2]%andb_prop.
  split; [by apply shape9b_sound | by apply in_rangeb_sound].
Qed.

Lemma no_zerosb_sound b : no_zerosb b = true → no_zeros b.
Proof.
  unfold no_zerosb. rewrite all9_true. intros H i j Hi Hj.
  specialize (H i Hi). rewrite all9_true in H. specialize (H j Hj). lia.
Qed.

Lemma peersb_complete i j i' j' : peers i j i' j' → peersb i j i' j' = true.
Proof.
  unfold peers, peersb. intros [Hne H].
  apply andb_true_intro. split.
  - apply negb_true_iff, andb_false_iff.
    destruct (Nat.eqb_spec i i'), (Nat.eqb_spec j j'); auto. congruence.
  - destruct H as [->|[->|[-> ->]]]; rewrite ?Nat.eqb_refl;
      by rewrite ?orb_true_r.
Qed.

Lemma consistentb_sound b : consistentb b = true → consistent b.
Proof.
  unfold consistentb. rewrite all9_true.
  intros H i j i' j' Hi Hj Hi' Hj' Hp Hnz.
  specialize (H i Hi). rewrite all9_true in H.
  specialize (H j Hj). rewrite all9_true in H.
  specialize (H i' Hi'). rewrite all9_true in H.
  specialize (H j' Hj'). rewrite (peersb_complete _ _ _ _ Hp) in H.
  destruct (Z.eqb_spec (get b i j) 0); [done|]. simpl in H. lia.
Qed.

Lemma in_range_get b i j : in_range b → (0 ≤ get b i j ≤ 9)%Z.
Proof.
  unfold in_range, get. intros H.
  destruct (b !! i) as [r|] eqn:Er; simpl; [|lia].
  rewrite Forall_lookup in H. specialize (H _ _ Er).
  destruct (r !! j) as [v|] eqn:Ev; simpl; [|lia].
  rewrite Forall_lookup in H. by apply (H j).
Qed.

(** ** C1: a successful call leaves a solved grid *)

Lemma placed_no_conflicts b b' :
  in_range b → consistent b → no_zeros b' →
  same_givens b b' → placed_ok b b' →
  all_digits b' ∧ no_conflicts b'.
Proof.
  intros Hrange Hcons Hnz Hsame Hok. split.
  - intros i j Hi Hj. destruct (decide (get b i j = 0%Z)) as [Hz|Hne].
    + by apply Hok.
    + rewrite Hsame by done. pose proof (in_range_get b i j Hrange). lia.
  - intros i j i' j' Hi Hj Hi' Hj' Hp.
    destruct (decide (get b i j = 0%Z)) as [Hz|Hne].
    { by apply Hok. }
    destruct (decide (get b i' j' = 0%Z)) as [Hz'|Hne'].
    { intros Heq. destruct (Hok i' j' Hi' Hj' Hz') as [_ Hd].
      apply (Hd i j); [done | done | by apply peers_sym | done]. }
    rewrite !Hsame by done. by apply Hcons.
Qed.

Lemma solveSudoku_true_completes fuel b b' :
  well_formed b → consistent b →
  solveSudoku fuel b = Some (Val true, b') →
  no_zeros b' ∧ completes b b'.
Proof.
  intros [Hs Hrange] Hcons Hrun.
  apply solveSudoku_true_sound in Hrun as (Hs' & Hnz & Hsame & Hok);
    [|done].
  split; [done|]. split; [done|]. split; [done|].
  destruct (placed_no_conflicts b b') as [Hd Hc]; [done..|].
  by apply solved_of_no_conflicts.
Qed.

(** C1.  For a well-formed grid whose non-zero cells satisfy the row,
    column and box uniqueness constraints, a call of [solveSudoku] that
    returns [true] leaves a 9x9 grid without zeros in which every row, every
    column and every 3x3 box is a permutation of 1..9. *)
Theorem solveSudoku_true_solved fuel b b' :
  well_formed b → consistent b →
  solveSudoku fuel b = Some (Val true, b') →
  shape9 b' ∧ no_zeros b' ∧ solved b'.
Proof.
  intros Hwf Hcons Hrun.
  destruct (solveSudoku_true_completes fuel b b') as (Hnz & Hs' & _ & Hsol);
    done.
Qed.

Lemma solveSudoku_true_solved_witness :
  shape9 example_solution ∧ no_zeros example_solution ∧
  solved example_solution.
Proof.
  apply (solveSudoku_true_solved 82 example).
  - apply well_formedb_sound. vm_compute. reflexivity.
  - apply consistentb_sound. vm_compute. reflexivity.
  - vm_compute. reflexivity.
Defined.

(** ** C3: a failing call restores the grid *)

(** C3.  Whenever [solveSudoku] returns [false], the grid at return is
    equal, cell for cell, to the grid at entry: every tentative placement,
    including the one at the cell located by the top-level call, has been
    reset to 0.  This holds for every board. *)
Theorem solveSudoku_false_unchanged fuel b b' :
  solveSudoku fuel b = Some (Val false, b') → b' = b.
Proof. apply solveSudoku_restores. Qed.

Lemma solveSudoku_false_unchanged_witness :
  solveSudoku 82 dead_end = Some (Val false, dead_end) ∧
  dead_end = dead_end.
Proof.
  split; [vm_compute; reflexivity|].
  apply (solveSudoku_false_unchanged 82 dead_end dead_end).
  vm_compute. reflexivity.
Defined.

(** ** C4 and C10: grids without empty cells *)

Lemma solveSudoku_full fuel b :
  shape9 b → no_zeros b → solveSudoku (S fuel) b = Some (Val true, b).
Proof.
  intros Hs Hnz. rewrite solveSudoku_S.
  by rewrite (proj2 (findEmptyCell_None b Hs) Hnz).
Qed.

(** C4.  For a 9x9 grid that has no zero cell and no repeated digit in any
    row, column or box, [solveSudoku] returns [true] and leaves every cell
    unchanged, with any positive amount of fuel: a solved grid is a fixed
    point. *)
Theorem solveSudoku_solved_fixed_point fuel b :
  shape9 b → no_zeros b → consistent b →
  solveSudoku (S fuel) b = Some (Val true, b).
Proof. intros Hs Hnz _. by apply solveSudoku_full. Qed.

Lemma solveSudoku_solved_fixed_point_witness :
  solveSudoku 1 example_solution = Some (Val true, example_solution).
Proof.
  apply (solveSudoku_solved_fixed_point 0 example_solution).
  - apply shape9b_sound. vm_compute. reflexivity.
  - apply no_zerosb_sound. vm_compute. reflexivity.
  - apply consistentb_sound. vm_compute. reflexivity.
Defined.

(** Solving the result of a successful call again changes nothing. *)
Lemma solveSudoku_idempotent fuel fuel' b b' :
  shape9 b → solveSudoku fuel b = Some (Val true, b') →
  solveSudoku (S fuel') b' = Some (Val true, b').
Proof.
  intros Hs Hrun.
  apply solveSudoku_true_sound in Hrun as (Hs' & Hnz & _); [|done].
  by apply solveSudoku_full.
Qed.

(** C10.  For every 9x9 grid without a zero cell, [solveSudoku] returns
    [true] at once and leaves the grid unchanged, whether or not the grid
    respects the uniqueness constraints: the base case checks nothing. *)
Theorem solveSudoku_full_unchecked fuel b :
  shape9 b → no_zeros b → solveSudoku (S fuel) b = Some (Val true, b).
Proof. apply solveSudoku_full. Qed.

Lemma solveSudoku_full_unchecked_witness :
  get filled_conflict 0 0 = get filled_conflict 0 1 ∧
  solveSudoku 1 filled_conflict = Some (Val true, filled_conflict).
Proof.
  split; [reflexivity|].
  apply (solveSudoku_full_unchecked 0 filled_conflict).
  - apply shape9b_sound. vm_compute. reflexivity.
  - apply no_zerosb_sound. vm_compute. reflexivity.
Defined.

(** ** C5: termination *)

(** C5.  For every well-formed grid the search terminates with [true] or
    [false]: one result is produced by every amount of fuel above the number
    of empty cells, since each recursive call works on a grid with one empty
    cell less and the loop has nine iterations. *)
Theorem solveSudoku_terminates b :
  well_formed b →
  ∃ (r : bool) b', ∀ fuel, zeros b < fuel →
    solveSudoku fuel b = Some (Val r, b').
Proof.
  intros [Hs _].
  destruct (solveSudoku_total (S (zeros b)) b) as [[r b'] Hrun]; [lia|].
  destruct (solveSudoku_shape9 _ _ _ _ Hs Hrun) as [Hne _].
  destruct r as [r|]; [|done]. exists r, b'. intros fuel Hf.
  apply (solveSudoku_fuel_mono (S (zeros b))); [lia | done].
Qed.

Lemma solveSudoku_terminates_witness :
  ∃ (r : bool) b', ∀ fuel, zeros example < fuel →
    solveSudoku fuel example = Some (Val r, b').
Proof.
  apply (solveSudoku_terminates example).
  apply well_formedb_sound. vm_compute. reflexivity.
Defined.

(** ** C6: [findEmptyCell] *)

(** C6.  On a 9x9 grid [findEmptyCell] returns [(i, j)] exactly when
    [(i, j)] is the first cell holding 0 in row-major order, returns [null]
    exactly when every cell is non-zero, and does not throw. *)
Theorem findEmptyCell_spec b :
  shape9 b →
  (∀ i j, findEmptyCell b = Val (Some (i, j)) ↔ first_zero b i j) ∧
  (findEmptyCell b = Val None ↔ no_zeros b) ∧
  findEmptyCell b ≠ TypeError.
Proof.
  intros Hs. split; [|split].
  - intros i j. by apply findEmptyCell_first_zero.
  - by apply findEmptyCell_None.
  - by apply findEmptyCell_no_throw.
Qed.

Lemma findEmptyCell_spec_witness :
  (∀ i j, findEmptyCell example = Val (Some (i, j)) ↔ first_zero example i j) ∧
  (findEmptyCell example = Val None ↔ no_zeros example) ∧
  findEmptyCell example ≠ TypeError.
Proof.
  apply (findEmptyCell_spec example).
  apply shape9b_sound. vm_compute. reflexivity.
Defined.

(** ** C7: [isValid] *)

(** C7.  On a 9x9 grid, for an empty cell [(row, col)] and a candidate
    1..9, [isValid] returns a boolean, and it returns [true] exactly when
    the candidate occurs in no cell of the row, no cell of the column and no
    cell of the box of [(row, col)].  [isValid] contains no assignment; it
    is a function of the grid and has no grid to hand back. *)
Theorem isValid_spec b row col num :
  shape9 b → row < 9 → col < 9 → get b row col = 0%Z →
  (1 ≤ num ≤ 9)%Z →
  ∃ r, isValid b row col num = Val r ∧
       (r = true ↔
        absent_row b row num ∧ absent_col b col num ∧
        absent_box b row col num).
Proof. intros Hs Hr Hc _ _. by apply isValid_shape9. Qed.

Lemma isValid_spec_witness :
  ∃ r, isValid example 0 2 4 = Val r ∧
       (r = true ↔
        absent_row example 0 4 ∧ absent_col example 2 4 ∧
        absent_box example 0 2 4).
Proof.
  apply (isValid_spec example 0 2 4).
  - apply shape9b_sound. vm_compute. reflexivity.
  - lia.
  - lia.
  - reflexivity.
  - lia.
Defined.

(** ** C9: the givens are never overwritten *)













(** ** C8: the example puzzle *)

Lemma completions_complete fuel b s :
  shape9 b → zeros b < fuel → completes b s → In s (completions fuel b).
Proof.
  revert b. induction fuel as [|fuel IH]; intros b Hs Hf (Hs' & Hsame & Hsol);
    [lia|].
  cbn [completions].
  pose proof (findEmptyCell_no_throw b Hs) as Hnt.
  destruct (findEmptyCell b) as [[[row col]|]|] eqn:Ef; [| |done].
  - pose proof (findEmptyCell_Some _ _ _ Ef) as (Hr & Hc & Hz).
    pose proof (index2_get _ _ _ _ Hz) as Hz0.
    destruct (solved_no_conflicts s Hsol) as [Hd Hnc].
    pose proof (Hd row col Hr Hc) as Hv.
    assert (Hpeer : ∀ i j, i < 9 → j < 9 →
              (i = row ∨ j = col ∨ (i / 3 = row / 3 ∧ j / 3 = col / 3)) →
              get b i j ≠ get s row col).
    { intros i j Hi Hj Hp.
      destruct (decide (get b i j = 0%Z)) as [E0|Hne]; [lia|].
      rewrite <- (Hsame i j) by done. apply Hnc; [done..|].
      split; [|done]. intros [= -> ->]. done. }
    apply in_flat_map. exists (get s row col). split.
    { unfold digits. simpl. lia. }
    destruct (isValid_shape9 b row col (get s row col) Hs Hr Hc)
      as (r & -> & Hiff).
    assert (r = true) as ->.
    { apply Hiff. split; [|split].
      - intros j Hj. apply Hpeer; auto.
      - intros i Hi. apply Hpeer; auto.
      - intros i j Hi Hj Hbi Hbj. apply Hpeer; auto. }
    apply IH.
    + by apply shape9_store.
    + pose proof (zeros_store b row col (get s row col) Hz). lia.
    + split; [done|]. split; [|done]. intros i j Hi Hj Hne.
      destruct (decide ((i, j) = (row, col))) as [[= -> ->]|Hne'].
      * by rewrite get_store_eq.
      * rewrite get_store_ne in * by done. by apply Hsame.
  - left. apply findEmptyCell_None in Ef; [|done].
    apply board_ext; [done | done |]. intros i j Hi Hj.
    symmetry. apply Hsame; [done | done |]. by apply Ef.
Qed.

(** C8.  On the example puzzle of [loadExample], [solveSudoku] returns
    [true] (with every amount of fuel above the 51 empty cells) and turns
    the grid into [example_solution], which is a valid completion of the
    puzzle and the only one. *)
Theorem example_solved :
  (∀ fuel, zeros example < fuel →
     solveSudoku fuel example = Some (Val true, example_solution)) ∧
  completes example example_solution ∧
  (∀ s, completes example s → s = example_solution).
Proof.
  assert (Hwf : shape9 example)
    by (apply shape9b_sound; vm_compute; reflexivity).
  assert (Hrun : solveSudoku 52 example = Some (Val true, example_solution))
    by (vm_compute; reflexivity).
  assert (Hz : zeros example = 51) by (vm_compute; reflexivity).
  split; [|split].
  - intros fuel Hf. apply (solveSudoku_fuel_mono 52); [lia | done].
  - apply (solveSudoku_true_completes 52 example example_solution);
      [| |done].
    + apply well_formedb_sound. vm_compute. reflexivity.
    + apply consistentb_sound. vm_compute. reflexivity.
  - intros s Hs.
    apply (completions_complete 52 example s Hwf) in Hs; [|lia].
    assert (Hall : completions 52 example = [example_solution])
      by (vm_compute; reflexivity).
    rewrite Hall in Hs. by destruct Hs as [<-|[]].
Qed.

Lemma example_solved_witness :
  solveSudoku 82 example = Some (Val true, example_solution).
Proof.
  apply (proj1 example_solved 82). apply Nat.ltb_lt. vm_compute.
  reflexivity.
Defined.

(** ** C2: grids with a repeated digit *)

(** A duplicate among the givens survives a successful call. *)
Lemma has_duplicate_kept fuel b b' :
  shape9 b → has_duplicate b →
  solveSudoku fuel b = Some (Val true, b') → has_duplicate b'.
Proof.
  intros Hs (i & j & i' & j' & Hi & Hj & Hi' & Hj' & Hp & Hne & Heq) Hrun.
  apply solveSudoku_true_sound in Hrun as (_ & _ & Hsame & _); [|done].
  exists i, j, i', j'. repeat (split; [done|]).
  rewrite !Hsame by congruence. done.
Qed.

Lemma finite_choice {A} (P : nat → A → Prop) n :
  (∀ i, i < n → ∃ x, P i x) →
  ∃ l : list A, length l = n ∧ ∀ i x, l !! i = Some x → P i x.
Proof.
  induction n as [|n IH]; intros H.
  - exists []. split; [done|]. intros i x. by rewrite lookup_nil.
  - destruct IH as (l & Hlen & Hl); [intros i Hi; apply H; lia|].
    destruct (H n) as [x Hx]; [lia|].
    exists (l ++ [x]). split; [rewrite length_app; simpl; lia|].
    intros i y Hy. apply lookup_app_Some in Hy as [Hy | [Hge Hy]].
    + by apply Hl.
    + rewrite Hlen in *. apply list_lookup_singleton_Some in Hy as [Hi ->].
      by replace i with n by lia.
Qed.

Lemma two_ones_cells i j :
  i < 9 → j < 9 →
  get two_ones i j = (if Nat.eqb i 0 && Nat.ltb j 2 then 1 else 0)%Z.
Proof.
  intros Hi Hj.
  assert (H : all9 (λ i, all9 (λ j,
    Z.eqb (get two_ones i j)
      (if Nat.eqb i 0 && Nat.ltb j 2 then 1 else 0))) = true)
    by (vm_compute; reflexivity).
  rewrite all9_true in H. specialize (H i Hi). rewrite all9_true in H.
  specialize (H j Hj). by apply Z.eqb_eq.
Qed.

(** No successful run exists on [two_ones]: each of the rows 1..8 would
    need a 1 in one of the columns 2..8, and no two of them in the same
    column. *)
Lemma two_ones_never_true fuel b' :
  solveSudoku fuel two_ones ≠ Some (Val true, b').
Proof.
  intros Hrun.
  apply solveSudoku_true_sound in Hrun as (Hs' & Hnz & Hsame & Hok);
    [|apply shape9b_sound; vm_compute; reflexivity].
  assert (Htop : ∀ j, j < 2 → get b' 0 j = 1%Z).
  { intros j Hj. rewrite Hsame; [|lia|lia|].
    - rewrite two_ones_cells by lia. by destruct j as [|[|j]]; [| |lia].
    - rewrite two_ones_cells by lia. by destruct j as [|[|j]]; [| |lia]. }
  assert (Hempty : ∀ i j, 0 < i < 9 → j < 9 → get two_ones i j = 0%Z).
  { intros i j Hi Hj. rewrite two_ones_cells by lia.
    by destruct i as [|i]; [lia|]. }
  assert (Hone : ∀ k, k < 8 → ∃ j, 2 ≤ j < 9 ∧ get b' (S k) j = 1%Z).
  { intros k Hk.
    assert (Hperm : (λ j, get b' (S k) j) <$> seq 0 9 ≡ₚ digits).
    { apply nine_digits_permutation.
      - intros j Hj. apply Hok; [lia | done |]. apply Hempty; lia.
      - intros j j' Hj Hj' Hne.
        apply Hok; [lia | done | apply Hempty; lia | lia | done |].
        split; [congruence | auto]. }
    assert (Hin : 1%Z ∈ digits) by (apply list_elem_of_In; simpl; auto).
    rewrite <- Hperm in Hin.
    apply list_elem_of_fmap in Hin as (j & Hj1 & Hj%elem_of_seq).
    exists j. split; [|done].
    destruct (decide (j < 2)) as [Hlt|]; [|lia]. exfalso.
    destruct (Hok (S k) j) as [_ Hd]; [lia | lia | apply Hempty; lia |].
    apply (Hd 0 j); [lia | lia | | by rewrite Htop].
    split; [congruence | auto]. }
  apply finite_choice in Hone as (l & Hlen & Hl).
  assert (Hnd : NoDup l).
  { apply NoDup_alt. intros k k' j Hk Hk'.
    destruct (decide (k = k')) as [|Hne]; [done|]. exfalso.
    pose proof (lookup_lt_Some _ _ _ Hk). pose proof (lookup_lt_Some _ _ _ Hk').
    destruct (Hl _ _ Hk) as [Hj H1]. destruct (Hl _ _ Hk') as [_ H1'].
    destruct (Hok (S k) j) as [_ Hd]; [lia | lia | apply Hempty; lia |].
    apply (Hd (S k') j); [lia | lia | | congruence].
    split; [congruence | auto]. }
  assert (Hsub : l ⊆+ seq 2 7).
  { apply NoDup_submseteq; [done|]. intros j [k Hk]%list_elem_of_lookup.
    apply elem_of_seq. destruct (Hl _ _ Hk). lia. }
  apply submseteq_length in Hsub. rewrite length_seq in Hsub. lia.
Qed.

Lemma two_ones_rejected fuel :
  zeros two_ones < fuel →
  solveSudoku fuel two_ones = Some (Val false, two_ones).
Proof.
  intros Hf. destruct (solveSudoku_total fuel two_ones Hf) as [[r b'] Hrun].
  assert (Hs : shape9 two_ones)
    by (apply shape9b_sound; vm_compute; reflexivity).
  destruct (solveSudoku_shape9 _ _ _ _ Hs Hrun) as [Hne _].
  destruct r as [[|]|]; [| |done].
  - exfalso. by apply (two_ones_never_true fuel b').
  - by rewrite (solveSudoku_restores _ _ _ Hrun) in Hrun.
Qed.

(** C2 as stated fails: [almost_filled_conflict] is a well-formed grid with
    two 3s in row 0, and [solveSudoku] returns [true] on it, with every
    amount of fuel that lets it finish; it never returns [false]. *)
Lemma duplicate_accepted :
  well_formed almost_filled_conflict ∧
  has_duplicate almost_filled_conflict ∧
  (∀ fuel, 1 < fuel →
     solveSudoku fuel almost_filled_conflict =
       Some (Val true, filled_conflict)) ∧
  (∀ fuel b', solveSudoku fuel almost_filled_conflict
              ≠ Some (Val false, b')).
Proof.
  assert (Hrun : solveSudoku 2 almost_filled_conflict =
                 Some (Val true, filled_conflict))
    by (vm_compute; reflexivity).
  split; [apply well_formedb_sound; vm_compute; reflexivity|].
  split.
  { exists 0, 0, 0, 1. repeat (split; [lia|]).
    split; [|split; [done | reflexivity]].
    split; [congruence | auto]. }
  split.
  - intros fuel Hf. apply (solveSudoku_fuel_mono 2); [lia | done].
  - intros fuel b' Hfalse.
    apply (solveSudoku_fuel_mono _ (fuel + 2)) in Hfalse; [|lia].
    apply (solveSudoku_fuel_mono _ (fuel + 2)) in Hrun; [|lia].
    congruence.
Qed.

(** C2, amended.  On the grid whose row 0 is 1,1,0,0,0,0,0,0,0 and whose
    other cells are 0, [solveSudoku] returns [false] (with every amount of
    fuel above the 79 empty cells) and leaves the grid as it was.  For an
    arbitrary 9x9 grid with two equal non-zero digits in one row, column or
    box, a call that returns [true] leaves a grid that still has two equal
    digits in one row, column or box. *)
Theorem duplicate_row_rejected :
  (∀ fuel, zeros two_ones < fuel →
     solveSudoku fuel two_ones = Some (Val false, two_ones)) ∧
  (∀ fuel b b', shape9 b → has_duplicate b →
     solveSudoku fuel b = Some (Val true, b') → has_duplicate b').
Proof.
  split.
  - apply two_ones_rejected.
  - apply has_duplicate_kept.
Qed.

Lemma duplicate_row_rejected_witness :
  solveSudoku 82 two_ones = Some (Val false, two_ones) ∧
  has_duplicate filled_conflict.
Proof.
  split.
  - apply (proj1 duplicate_row_rejected 82). apply Nat.ltb_lt.
    vm_compute. reflexivity.
  - apply (proj2 duplicate_row_rejected 2 almost_filled_conflict
             filled_conflict).
    + apply shape9b_sound. vm_compute. reflexivity.
    + exists 0, 0, 0, 1. repeat (split; [lia|]).
      split; [|split; [done | reflexivity]].
      split; [congruence | auto].
    + vm_compute. reflexivity.
Defined.

(** ** Further properties of the search: failure, completeness, order *)

(** The value a completion holds at an empty cell passes [isValid]. *)
Lemma isValid_completion b s row col :
  shape9 b → row < 9 → col < 9 → get b row col = 0%Z → completes b s →
  isValid b row col (get s row col) = Val true.
Proof.
  intros Hs Hr Hc Hz (Hs' & Hsame & Hsol).
  destruct (solved_no_conflicts s Hsol) as [Hd Hnc].
  pose proof (Hd row col Hr Hc) as Hv.
  assert (Hpeer : ∀ i j, i < 9 → j < 9 →
            (i = row ∨ j = col ∨ (i / 3 = row / 3 ∧ j / 3 = col / 3)) →
            get b i j ≠ get s row col).
  { intros i j Hi Hj Hp.
    destruct (decide (get b i j = 0%Z)) as [E0|Hne]; [lia|].
    rewrite <- (Hsame i j) by done. apply Hnc; [done..|].
    split; [|done]. intros [= -> ->]. done. }
  destruct (isValid_shape9 b row col (get s row col) Hs Hr Hc)
    as (r & -> & Hiff).
  f_equal. apply Hiff. split; [|split].
  - intros j Hj. apply Hpeer; auto.
  - intros i Hi. apply Hpeer; auto.
  - intros i j Hi Hj Hbi Hbj. apply Hpeer; auto.
Qed.

(** A completion of [b] also completes [b] with its own value stored. *)
Lemma completes_store b s row col :
  shape9 b → row < 9 → col < 9 → completes b s →
  completes (store b row col (get s row col)) s.
Proof.
  intros Hs Hr Hc (Hs' & Hsame & Hsol). split; [done|]. split; [|done].
  intros i j Hi Hj Hne.
  destruct (decide ((i, j) = (row, col))) as [[= -> ->]|Hne'].
  - by rewrite get_store_eq.
  - rewrite get_store_ne in * by done. by apply Hsame.
Qed.

(** The candidate on which the loop succeeds is the first one whose
    recursive call succeeds: every smaller one was rejected or failed. *)
Lemma try_candidates_inv_first rec row col n num b b' :
  restores rec → index2 b row col = Val (Some 0%Z) →
  try_candidates rec row col n num b = Some (Val (Some true), b') →
  ∃ num', (num ≤ num' < num + Z.of_nat n)%Z ∧
          isValid b row col num' = Val true ∧
          rec (store b row col num') = Some (Val true, b') ∧
          ∀ m, (num ≤ m < num')%Z →
            isValid b row col m = Val false ∨
            rec (store b row col m) = Some (Val false, store b row col m).
Proof.
  intros Hres Hz. revert num. induction n as [|n IH]; intros num; simpl;
    [done|].
  destruct (isValid b row col num) as [[|]|] eqn:Ev; [| |done].
  - destruct (rec (store b row col num)) as [[[[|]|] b2]|] eqn:E;
      try done.
    + intros [= <-]. exists num. split; [lia|]. split; [done|].
      split; [done|]. intros m Hm. lia.
    + pose proof (Hres _ _ E) as ->. rewrite store_undo by done.
      intros H. apply IH in H as (num' & Hn & Hv & Hrec & Hfirst).
      exists num'. split; [lia|]. split; [done|]. split; [done|].
      intros m Hm. destruct (decide (m = num)) as [->|]; [by right|].
      apply Hfirst. lia.
  - intros H. apply IH in H as (num' & Hn & Hv & Hrec & Hfirst).
    exists num'. split; [lia|]. split; [done|]. split; [done|].
    intros m Hm. destruct (decide (m = num)) as [->|]; [by left|].
    apply Hfirst. lia.
Qed.

Lemma solveSudoku_false_no_completion fuel b b' s :
  shape9 b → solveSudoku fuel b = Some (Val false, b') → ¬ completes b s.
Proof.
  revert b b'. induction fuel as [|fuel IH]; intros b b' Hs; [done|].
  rewrite solveSudoku_S.
  destruct (findEmptyCell b) as [[[row col]|]|] eqn:Ef; [|done|done].
  pose proof (findEmptyCell_Some _ _ _ Ef) as (Hr & Hc & Hz).
  pose proof (index2_get _ _ _ _ Hz) as Hz0.
  destruct (try_candidates (solveSudoku fuel) row col 9 1 b)
    as [[[[r|]|] b2]|] eqn:Et; try done.
  { by rewrite (try_candidates_returns_true _ _ _ _ _ _ _ _ Et). }
  intros _ Hcomp.
  pose proof (isValid_completion b s row col Hs Hr Hc Hz0 Hcomp) as Hv.
  assert (Hd : (1 ≤ get s row col ≤ 9)%Z).
  { destruct Hcomp as (_ & _ & Hsol).
    by apply (solved_no_conflicts s Hsol). }
  destruct (try_candidates_inv_false (solveSudoku fuel) row col
              (solveSudoku_restores fuel) 9 1 b b2 Hz Et (get s row col))
    as [Hf | [_ Hf]]; [lia | congruence |].
  apply (IH _ _ (shape9_store b row col (get s row col) Hs) Hf).
  by apply completes_store.
Qed.

(** X1.  When [solveSudoku] returns [false] on a 9x9 grid, the grid has no
    valid completion: no 9x9 grid keeps its non-zero cells and has every
    row, column and box a permutation of 1..9. *)
Theorem solveSudoku_false_unsolvable fuel b b' :
  shape9 b → solveSudoku fuel b = Some (Val false, b') →
  ¬ ∃ s, completes b s.
Proof.
  intros Hs Hrun [s Hcomp].
  by apply (solveSudoku_false_no_completion fuel b b' s).
Qed.

Lemma solveSudoku_false_unsolvable_witness : ¬ ∃ s, completes dead_end s.
Proof.
  apply (solveSudoku_false_unsolvable 82 dead_end dead_end).
  - apply shape9b_sound. vm_compute. reflexivity.
  - vm_compute. reflexivity.
Defined.

Lemma completes_givens b s :
  completes b s →
  (∀ i j, i < 9 → j < 9 → (0 ≤ get b i j ≤ 9)%Z) ∧ consistent b.
Proof.
  intros (Hs' & Hsame & Hsol).
  destruct (solved_no_conflicts s Hsol) as [Hd Hnc]. split.
  - intros i j Hi Hj. destruct (decide (get b i j = 0%Z)) as [->|Hne]; [lia|].
    rewrite <- Hsame by done. specialize (Hd i j Hi Hj). lia.
  - intros i j i' j' Hi Hj Hi' Hj' Hp Hne.
    destruct (decide (get b i' j' = 0%Z)) as [E|Hne']; [congruence|].
    rewrite <- (Hsame i j), <- (Hsame i' j') by done. by apply Hnc.
Qed.

Lemma solveSudoku_true_completes_get fuel b b' :
  shape9 b → (∀ i j, i < 9 → j < 9 → (0 ≤ get b i j ≤ 9)%Z) →
  consistent b → solveSudoku fuel b = Some (Val true, b') →
  completes b b'.
Proof.
  intros Hs Hrange Hcons Hrun.
  apply solveSudoku_true_sound in Hrun as (Hs' & Hnz & Hsame & Hok);
    [|done].
  split; [done|]. split; [done|]. apply solved_of_no_conflicts.
  - intros i j Hi Hj. destruct (decide (get b i j = 0%Z)) as [Hz|Hne].
    + by apply Hok.
    + rewrite Hsame by done. specialize (Hrange i j Hi Hj). lia.
  - intros i j i' j' Hi Hj Hi' Hj' Hp.
    destruct (decide (get b i j = 0%Z)) as [Hz|Hne].
    { by apply Hok. }
    destruct (decide (get b i' j' = 0%Z)) as [Hz'|Hne'].
    { intros Heq. destruct (Hok i' j' Hi' Hj' Hz') as [_ Hd].
      apply (Hd i j); [done | done | by apply peers_sym | done]. }
    rewrite !Hsame by done. by apply Hcons.
Qed.

(** X2.  The search is complete: when a 9x9 grid has a valid completion,
    [solveSudoku] returns [true], with every amount of fuel above the number
    of empty cells, and the grid it leaves is a valid completion. *)
Theorem solveSudoku_complete b s :
  shape9 b → completes b s →
  ∃ b', completes b b' ∧
    ∀ fuel, zeros b < fuel → solveSudoku fuel b = Some (Val true, b').
Proof.
  intros Hs Hcomp.
  destruct (solveSudoku_total (S (zeros b)) b) as [[r b'] Hrun]; [lia|].
  destruct (solveSudoku_shape9 _ _ _ _ Hs Hrun) as [Hne _].
  destruct r as [[|]|]; [| |done].
  - exists b'. split.
    + destruct (completes_givens b s Hcomp) as [Hrange Hcons].
      by apply (solveSudoku_true_completes_get (S (zeros b))).
    + intros fuel Hf.
      apply (solveSudoku_fuel_mono (S (zeros b))); [lia | done].
  - exfalso. by apply (solveSudoku_false_no_completion _ _ _ s Hs Hrun).
Qed.

Lemma solveSudoku_complete_witness :
  ∃ b', completes example b' ∧
    ∀ fuel, zeros example < fuel →
      solveSudoku fuel example = Some (Val true, b').
Proof.
  apply (solveSudoku_complete example example_solution).
  - apply shape9b_sound. vm_compute. reflexivity.
  - apply (solveSudoku_true_completes 82 example example_solution).
    + apply well_formedb_sound. vm_compute. reflexivity.
    + apply consistentb_sound. vm_compute. reflexivity.
    + vm_compute. reflexivity.
Defined.

Lemma solveSudoku_true_first fuel b b' s :
  shape9 b → completes b s →
  solveSudoku fuel b = Some (Val true, b') → lex_le b' s.
Proof.
  revert b b'. induction fuel as [|fuel IH]; intros b b' Hs Hcomp; [done|].
  rewrite solveSudoku_S.
  destruct (findEmptyCell b) as [[[row col]|]|] eqn:Ef; [| |done].
  - pose proof (findEmptyCell_Some _ _ _ Ef) as (Hr & Hc & Hz).
    pose proof (index2_get _ _ _ _ Hz) as Hz0.
    apply findEmptyCell_first_zero in Ef as (_ & _ & _ & Hfirst); [|done].
    destruct (try_candidates (solveSudoku fuel) row col 9 1 b)
      as [[[[r|]|] b2]|] eqn:Et; try done.
    pose proof (try_candidates_returns_true _ _ _ _ _ _ _ _ Et) as ->.
    intros [= ->].
    apply try_candidates_inv_first in Et
      as (num & Hnum & Hv & Hrec & Hbefore);
      [|apply solveSudoku_restores|done].
    pose proof (isValid_completion b s row col Hs Hr Hc Hz0 Hcomp) as Hvs.
    assert (Hle : (num ≤ get s row col)%Z).
    { destruct (decide (num ≤ get s row col)%Z) as [|Hgt]; [done|].
      exfalso.
      assert (Hd : (1 ≤ get s row col ≤ 9)%Z).
      { destruct Hcomp as (_ & _ & Hsol).
        by apply (solved_no_conflicts s Hsol). }
      destruct (Hbefore (get s row col)) as [Hf|Hf]; [lia | congruence |].
      apply (solveSudoku_false_no_completion _ _ _ s
               (shape9_store b row col (get s row col) Hs) Hf).
      by apply completes_store. }
    destruct (decide (num = get s row col)) as [->|Hne].
    + apply (IH (store b row col (get s row col))); [|by apply completes_store|done].
      by apply shape9_store.
    + right. exists row, col. split; [done|]. split; [done|].
      apply solveSudoku_true_sound in Hrec as (_ & _ & Hsame' & _);
        [|by apply shape9_store].
      destruct Hcomp as (_ & Hsame & _). split.
      * rewrite Hsame'; [|done|done|rewrite get_store_eq by done; lia].
        rewrite get_store_eq by done. lia.
      * intros i' j' Hi' Hj' Hlt.
        assert ((i', j') ≠ (row, col)) by (intros [= -> ->]; lia).
        pose proof (Hfirst i' j' Hi' Hj' Hlt) as Hnz.
        rewrite Hsame' by (try done; by rewrite get_store_ne).
        rewrite get_store_ne by done. symmetry. by apply Hsame.
  - intros [= <-]. left. intros i j Hi Hj.
    apply findEmptyCell_None in Ef; [|done].
    destruct Hcomp as (_ & Hsame & _). symmetry. apply Hsame; auto.
Qed.

(** X3.  The grid left by a successful call is the first valid completion
    in row-major order: compared with any valid completion of the entry
    grid it is equal, or smaller at the first cell where the two differ. *)
Theorem solveSudoku_first_completion fuel b b' s :
  shape9 b → completes b s →
  solveSudoku fuel b = Some (Val true, b') → lex_le b' s.
Proof. apply solveSudoku_true_first. Qed.

(** ** The input filter of [handleCellChange] *)

Lemma digit_ascii_code d :
  (0 ≤ d ≤ 9)%Z → Ascii.N_of_ascii (digit_ascii d) = Z.to_N (48 + d).
Proof.
  intros Hd. unfold digit_ascii. apply Ascii.N_ascii_embedding. lia.
Qed.

Lemma allowed_cons c r :
  allowed (String c r) = true ↔
  (49 ≤ Ascii.N_of_ascii c < 57)%N ∨
  (Ascii.N_of_ascii c = 57%N ∧ r = ""%string).
Proof.
  unfold allowed. cbn [String.eqb orb].
  unfold String.leb. cbn [String.compare]. unfold Ascii.compare.
  change (Ascii.N_of_ascii
            (Ascii.Ascii true false false false true true false false))
    with 49%N.
  change (Ascii.N_of_ascii
            (Ascii.Ascii true false false true true true false false))
    with 57%N.
  destruct (N.compare_spec 49 (Ascii.N_of_ascii c)) as [E|E|E];
    destruct (N.compare_spec (Ascii.N_of_ascii c) 57) as [E'|E'|E'];
    destruct r as [|c' r']; cbn; split; try done; try lia;
    try (intros _; lia); try (intros [?|[? ?]]; (lia || done)).
  all: try (intros _; right; split; [done|done]).
Qed.

Lemma digit_ascii_of_code c :
  (48 ≤ Ascii.N_of_ascii c)%N →
  c = digit_ascii (Z.of_N (Ascii.N_of_ascii c) - 48).
Proof.
  intros Hc. unfold digit_ascii.
  replace (Z.to_N (48 + (Z.of_N (Ascii.N_of_ascii c) - 48)))
    with (Ascii.N_of_ascii c) by lia.
  by rewrite Ascii.ascii_N_embedding.
Qed.

(** X4.  The filter of [handleCellChange] accepts exactly the empty
    string, every string whose first character is one of 1..8 (whatever
    follows, so "10" and "2x" pass), and the string "9". *)
Theorem allowed_spec value :
  allowed value = true ↔
  value = ""%string ∨
  (∃ d rest, (1 ≤ d ≤ 8)%Z ∧ value = String (digit_ascii d) rest) ∨
  value = digit_string 9.
Proof.
  destruct value as [|c r].
  { split; [by left | done]. }
  rewrite allowed_cons. split.
  - intros [Hc | [Hc ->]]; right.
    + left. exists (Z.of_N (Ascii.N_of_ascii c) - 48)%Z, r.
      split; [lia|]. f_equal. apply digit_ascii_of_code. lia.
    + right. unfold digit_string. f_equal.
      rewrite (digit_ascii_of_code c) by lia. f_equal. lia.
  - intros [Hv | [(d & rest & Hd & [= -> ->]) | [= -> ->]]]; [done| |].
    + left. rewrite digit_ascii_code by lia. lia.
    + right. split; [|done]. rewrite digit_ascii_code by lia. lia.
Qed.

Lemma allowed_one_char value :
  String.length value ≤ 1 → allowed value = true ↔ clean_cell value.
Proof.
  intros Hlen. rewrite allowed_spec. unfold clean_cell. split.
  - intros [-> | [(d & rest & Hd & ->) | ->]]; [by left | |].
    + right. exists d. split; [lia|].
      destruct rest as [|c rest]; [done|]. simpl in Hlen. lia.
    + right. exists 9%Z. split; [lia | done].
  - intros [-> | (d & Hd & ->)]; [by left|]. right.
    destruct (decide (d = 9%Z)) as [->|Hne]; [by right|].
    left. exists d, ""%string. split; [lia | done].
Qed.

(** ** [handleCellChange] *)

Lemma cell_at_insert (b : cells) row col r value i j :
  b !! row = Some r → col < length r →
  cell_at (<[row := <[col := value]> r]> b) i j =
    if decide ((i, j) = (row, col)) then Some value else cell_at b i j.
Proof.
  intros Hr Hc. unfold cell_at.
  pose proof (lookup_lt_Some _ _ _ Hr) as Hlt.
  destruct (decide (i = row)) as [->|Hne].
  - rewrite list_lookup_insert_eq by done. rewrite Hr. simpl.
    destruct (decide (j = col)) as [->|Hne'].
    + rewrite decide_True by done. by apply list_lookup_insert_eq.
    + rewrite decide_False by congruence. by apply list_lookup_insert_ne.
  - rewrite list_lookup_insert_ne by done.
    by rewrite decide_False by congruence.
Qed.

(** X5.  [handleCellChange] on an existing cell: a value the filter
    rejects leaves the state as it is; a value it accepts is stored in that
    cell, every other cell keeps its string and the loading flag is
    unchanged. *)
Theorem handleCellChange_effect st row col value :
  is_Some (cell_at (ui_board st) row col) →
  ∃ st', handleCellChange st row col value = Some (Val st') ∧
    isLoading st' = isLoading st ∧
    (allowed value = false → st' = st) ∧
    (allowed value = true → ∀ i j,
       cell_at (ui_board st') i j =
         if decide ((i, j) = (row, col)) then Some value
         else cell_at (ui_board st) i j).
Proof.
  intros [c Hc]. unfold handleCellChange. unfold cell_at in Hc.
  destruct (ui_board st !! row) as [r|] eqn:Er; [|done]. simpl in Hc.
  pose proof (lookup_lt_Some _ _ _ Hc) as Hlt.
  destruct (allowed value) eqn:Ea.
  - rewrite decide_True by done. eexists. split; [done|]. split; [done|].
    split; [done|]. intros _ i j. simpl. by apply cell_at_insert.
  - exists st. split; [done|]. split; [done|]. split; [done|]. done.
Qed.

Lemma handleCellChange_effect_witness :
  ∃ st', handleCellChange initial 4 7 "6" = Some (Val st') ∧
    isLoading st' = isLoading initial ∧
    (allowed "6" = false → st' = initial) ∧
    (allowed "6" = true → ∀ i j,
       cell_at (ui_board st') i j =
         if decide ((i, j) = (4, 7)) then Some "6"%string
         else cell_at (ui_board initial) i j).
Proof.
  apply (handleCellChange_effect initial 4 7 "6").
  vm_compute. eexists. reflexivity.
Defined.

Lemma ui_ok_cell_at b i j :
  ui_ok b → i < 9 → j < 9 → ∃ c, cell_at b i j = Some c ∧ clean_cell c.
Proof.
  intros [Hlen Hrows] Hi Hj. unfold cell_at.
  destruct (b !! i) as [r|] eqn:Er; [|apply lookup_ge_None in Er; lia].
  rewrite Forall_lookup in Hrows. destruct (Hrows _ _ Er) as [Hl Hr].
  simpl. destruct (r !! j) as [c|] eqn:Ec; [|apply lookup_ge_None in Ec; lia].
  exists c. split; [done|]. rewrite Forall_lookup in Hr. by eapply Hr.
Qed.

(** X6.  Editing keeps the board in shape: on a board of nine rows of
    nine cells that are empty or hold one digit 1..9, [handleCellChange]
    with a value of at most one character (the inputs have
    [maxLength="1"]) and the indices of a rendered cell returns a board of
    the same kind. *)
Theorem handleCellChange_keeps_ok st row col value :
  ui_ok (ui_board st) → row < 9 → col < 9 → String.length value ≤ 1 →
  ∃ st', handleCellChange st row col value = Some (Val st') ∧
         ui_ok (ui_board st').
Proof.
  intros Hok Hr Hc Hlen. unfold handleCellChange.
  destruct (allowed value) eqn:Ea; [|by exists st].
  apply allowed_one_char in Ea; [|done].
  destruct Hok as [Hl Hrows].
  destruct (ui_board st !! row) as [r|] eqn:Er;
    [|apply lookup_ge_None in Er; lia].
  pose proof Hrows as Hrows'. rewrite Forall_lookup in Hrows'.
  destruct (Hrows' _ _ Er) as [Hlr Hcl].
  rewrite decide_True by lia. eexists. split; [done|]. simpl. split.
  - by rewrite length_insert.
  - apply Forall_insert; [done|]. split.
    + by rewrite length_insert.
    + by apply Forall_insert.
Qed.

Lemma clean_cellb_sound c : clean_cellb c = true → clean_cell c.
Proof.
  unfold clean_cellb, clean_cell. intros [H|H]%orb_prop.
  - left. by apply String.eqb_eq.
  - right. apply existsb_exists in H as (d & Hd & Heq).
    exists d. split; [|by apply String.eqb_eq].
    unfold digits in Hd. simpl in Hd. lia.
Qed.

Lemma ui_okb_sound b : ui_okb b = true → ui_ok b.
Proof.
  unfold ui_okb, ui_ok. intros [Hl Hr]%andb_prop. split.
  - by apply Nat.eqb_eq.
  - apply Forall_forall. intros r Hin. rewrite forallb_forall in Hr.
    apply Hr in Hin as [H1 H2]%andb_prop. split; [by apply Nat.eqb_eq|].
    apply Forall_forall. intros c Hc. rewrite forallb_forall in H2.
    apply clean_cellb_sound. by apply H2.
Qed.

Lemma handleCellChange_keeps_ok_witness :
  ∃ st', handleCellChange (loadExample initial) 0 2 "4" = Some (Val st') ∧
         ui_ok (ui_board st').
Proof.
  apply (handleCellChange_keeps_ok (loadExample initial) 0 2 "4").
  - apply ui_okb_sound. vm_compute. reflexivity.
  - lia.
  - lia.
  - simpl. lia.
Defined.

(** ** [handleSolve] *)

Lemma parseInt_digit_ok d :
  (1 ≤ d ≤ 9)%Z → parseInt_digit (digit_string d) = d.
Proof.
  intros Hd. unfold parseInt_digit, digit_string.
  rewrite digit_ascii_code by lia. lia.
Qed.

Section solving.
Variable parseInt : string → Z.
Variable toString : Z → string.

(** What the proofs use of the two built-ins: [parseInt] maps each of the
    strings "1".."9" to its digit, and [toString] maps each of 1..9 to that
    string. *)
Hypothesis parseInt_digits :
  ∀ d, (1 ≤ d ≤ 9)%Z → parseInt (digit_string d) = d.
Hypothesis toString_digits :
  ∀ d, (1 ≤ d ≤ 9)%Z → toString d = digit_string d.

Lemma to_number_clean c :
  clean_cell c →
  (0 ≤ to_number parseInt c ≤ 9)%Z ∧ (to_number parseInt c = 0%Z ↔ c = ""%string) ∧
  (c ≠ ""%string → toString (to_number parseInt c) = c).
Proof.
  unfold to_number. intros [-> | (d & Hd & ->)].
  - simpl. split; [lia|]. split; done.
  - simpl. rewrite parseInt_digits by done. split; [lia|]. split.
    + split; [lia | done].
    + intros _. by apply toString_digits.
Qed.

Lemma get_to_numbers b i j :
  get (to_numbers parseInt b) i j =
    default 0%Z (to_number parseInt <$> cell_at b i j).
Proof.
  unfold get, to_numbers, cell_at. rewrite list_lookup_fmap.
  destruct (b !! i) as [r|]; simpl; [|done].
  by rewrite list_lookup_fmap.
Qed.

Lemma cell_at_to_strings nb i j :
  cell_at (to_strings toString nb) i j =
    toString <$> (nb !! i ≫= λ r, r !! j).
Proof.
  unfold to_strings, cell_at. rewrite list_lookup_fmap.
  destruct (nb !! i) as [r|]; simpl; [|done].
  by rewrite list_lookup_fmap.
Qed.

Lemma to_numbers_shape9 b : ui_ok b → shape9 (to_numbers parseInt b).
Proof.
  intros [Hl Hrows]. split; unfold to_numbers.
  - by rewrite length_fmap.
  - apply Forall_fmap. eapply Forall_impl; [|exact Hrows].
    intros r [Hr _]. simpl. by rewrite length_fmap.
Qed.

Lemma to_numbers_in_range b : ui_ok b → in_range (to_numbers parseInt b).
Proof.
  intros [Hl Hrows]. unfold in_range, to_numbers.
  apply Forall_fmap. eapply Forall_impl; [|exact Hrows].
  intros r [_ Hr]. simpl. apply Forall_fmap.
  eapply Forall_impl; [|exact Hr]. intros c Hc. simpl.
  by apply (to_number_clean c).
Qed.

(** X7.  On a board of nine rows of nine cells that are empty or hold one
    digit 1..9, [handleSolve] sets the loading flag, leaves the board, and
    hands the search a well-formed grid: 9x9, every value in 0..9, with 0
    exactly at the empty cells and the digit of the cell elsewhere. *)
Theorem handleSolve_grid st :
  ui_ok (ui_board st) →
  let '(st', numberBoard) := handleSolve parseInt st in
  ui_board st' = ui_board st ∧ isLoading st' = true ∧
  well_formed numberBoard ∧
  ∀ i j c, cell_at (ui_board st) i j = Some c →
    (get numberBoard i j = 0%Z ↔ c = ""%string) ∧
    (c ≠ ""%string → toString (get numberBoard i j) = c).
Proof.
  intros Hok. simpl. split; [done|]. split; [done|]. split.
  - split; [by apply to_numbers_shape9 | by apply to_numbers_in_range].
  - intros i j c Hc. rewrite get_to_numbers, Hc. simpl.
    assert (Hclean : clean_cell c).
    { destruct Hok as [_ Hrows]. unfold cell_at in Hc.
      destruct (ui_board st !! i) as [r|] eqn:Er; [|done]. simpl in Hc.
      rewrite Forall_lookup in Hrows. destruct (Hrows _ _ Er) as [_ Hr].
      rewrite Forall_lookup in Hr. by eapply Hr. }
    destruct (to_number_clean c Hclean) as (_ & H0 & Hs). done.
Qed.

(** The cells of a grid of digits, shown as strings. *)
Lemma to_strings_ok nb :
  shape9 nb → all_digits nb → ui_ok (to_strings toString nb).
Proof.
  intros [Hl Hrows] Hd. split; unfold to_strings.
  - by rewrite length_fmap.
  - apply Forall_lookup. intros i r' Hr'.
    rewrite list_lookup_fmap in Hr'.
    destruct (nb !! i) as [r|] eqn:Er; [|done]. injection Hr' as <-.
    pose proof (lookup_lt_Some _ _ _ Er) as Hi.
    rewrite Forall_lookup in Hrows. pose proof (Hrows _ _ Er) as Hlr.
    split; [by rewrite length_fmap|].
    apply Forall_lookup. intros j c Hc. rewrite list_lookup_fmap in Hc.
    destruct (r !! j) as [v|] eqn:Ev; [|done]. injection Hc as <-.
    pose proof (lookup_lt_Some _ _ _ Ev) as Hj.
    assert (Hv : get nb i j = v) by (unfold get; by rewrite Er; simpl; rewrite Ev).
    specialize (Hd i j ltac:(lia) ltac:(lia)). rewrite Hv in Hd.
    right. exists v. split; [done|]. by apply toString_digits.
Qed.

Lemma to_numbers_to_strings nb :
  shape9 nb → all_digits nb →
  to_numbers parseInt (to_strings toString nb) = nb.
Proof.
  intros Hs Hd. apply board_ext; [|done|].
  - apply to_numbers_shape9. by apply to_strings_ok.
  - intros i j Hi Hj. rewrite get_to_numbers, cell_at_to_strings.
    pose proof (shape9_index2 nb i j Hs Hi Hj) as Hidx.
    unfold index2 in Hidx. destruct (nb !! i) as [r|]; [|done].
    injection Hidx as Hidx. simpl. rewrite Hidx. simpl.
    specialize (Hd i j Hi Hj). unfold to_number.
    rewrite toString_digits by done. simpl. by apply parseInt_digits.
Qed.

(** The grid of a board and what a successful search makes of it. *)
Lemma solved_display b nb' fuel :
  ui_ok b → solveSudoku fuel (to_numbers parseInt b) = Some (Val true, nb') →
  shape9 nb' ∧ all_digits nb' ∧
  ∀ i j c, cell_at b i j = Some c → c ≠ ""%string →
    cell_at (to_strings toString nb') i j = Some c.
Proof.
  intros Hok Hrun.
  pose proof (to_numbers_shape9 b Hok) as Hs.
  apply solveSudoku_true_sound in Hrun as (Hs' & Hnz & Hsame & Hplaced);
    [|done].
  assert (Hgiven : ∀ i j c, i < 9 → j < 9 → cell_at b i j = Some c →
            c ≠ ""%string →
            toString (get nb' i j) = c ∧ (1 ≤ get nb' i j ≤ 9)%Z).
  { intros i j c Hi Hj Hc Hne.
    destruct (ui_ok_cell_at b i j Hok Hi Hj) as (c' & Hc' & Hclean).
    rewrite Hc in Hc'. injection Hc' as <-.
    destruct (to_number_clean c Hclean) as (Hr & H0 & Hstr).
    assert (Hg : get (to_numbers parseInt b) i j = to_number parseInt c)
      by (by rewrite get_to_numbers, Hc).
    rewrite Hsame by (try done; rewrite Hg; tauto).
    rewrite Hg. split; [by apply Hstr|].
    assert (to_number parseInt c ≠ 0%Z) by tauto. lia. }
  split; [done|]. split.
  - intros i j Hi Hj.
    destruct (ui_ok_cell_at b i j Hok Hi Hj) as (c & Hc & Hclean).
    destruct (decide (c = ""%string)) as [->|Hne].
    + apply Hplaced; [done | done |]. by rewrite get_to_numbers, Hc.
    + by apply (Hgiven i j c).
  - intros i j c Hc Hne.
    assert (Hi : i < 9 ∧ j < 9).
    { destruct Hok as [Hl Hrows]. unfold cell_at in Hc.
      destruct (b !! i) as [r|] eqn:Er; [|done]. simpl in Hc.
      pose proof (lookup_lt_Some _ _ _ Er).
      rewrite Forall_lookup in Hrows. destruct (Hrows _ _ Er) as [Hlr _].
      pose proof (lookup_lt_Some _ _ _ Hc). lia. }
    destruct Hi as [Hi Hj]. rewrite cell_at_to_strings.
    pose proof (shape9_index2 nb' i j Hs' Hi Hj) as Hidx.
    unfold index2 in Hidx. destruct (nb' !! i) as [r|]; [|done].
    injection Hidx as Hidx. simpl. rewrite Hidx. simpl. f_equal.
    by apply (Hgiven i j c).
Qed.


(** X9.  On a board of nine rows of nine cells that are empty or hold one
    digit 1..9, the callback of [handleSolve] always finishes, without an
    exception, and clears the loading flag.  When it calls [alert], the
    board is left as it is and the puzzle has no valid completion; when it
    does not and the digits on the board respect the row, column and box
    constraints, the board it sets is a valid completion of the puzzle. *)
Theorem solve_timeout_outcome st st1 :
  ui_ok (ui_board st) →
  let numberBoard := (handleSolve parseInt st).2 in
  ∃ st' alerted,
    (∀ fuel, zeros numberBoard < fuel →
       solve_timeout toString fuel numberBoard st1
         = Some (Val (st', alerted))) ∧
    isLoading st' = false ∧
    (alerted = true →
       ui_board st' = ui_board st1 ∧ ¬ ∃ s, completes numberBoard s) ∧
    (alerted = false → consistent numberBoard →
       completes numberBoard (to_numbers parseInt (ui_board st'))).
Proof.
  intros Hok. simpl. set (nb := to_numbers parseInt (ui_board st)).
  pose proof (to_numbers_shape9 _ Hok) as Hs. fold nb in Hs.
  destruct (solveSudoku_total (S (zeros nb)) nb) as [[r nb'] Hrun]; [lia|].
  destruct (solveSudoku_shape9 _ _ _ _ Hs Hrun) as [Hne Hs'].
  assert (Hall : ∀ fuel, zeros nb < fuel →
            solveSudoku fuel nb = Some (r, nb')).
  { intros fuel Hf. apply (solveSudoku_fuel_mono (S (zeros nb))); [lia|done]. }
  destruct r as [[|]|]; [| |done].
  - exists (UI (to_strings toString nb') false), false.
    split; [|split; [done|split; [done|]]].
    { intros fuel Hf. unfold solve_timeout. by rewrite (Hall fuel Hf). }
    intros _ Hcons. simpl.
    destruct (solved_display _ _ _ Hok Hrun) as (_ & Hd & _).
    rewrite to_numbers_to_strings by done.
    apply (solveSudoku_true_completes (S (zeros nb))); [|done|done].
    split; [done|]. by apply to_numbers_in_range.
  - exists (UI (ui_board st1) false), true.
    split; [|split; [done|split; [|done]]].
    { intros fuel Hf. unfold solve_timeout. by rewrite (Hall fuel Hf). }
    intros _. split; [done|]. intros [s Hcomp].
    by apply (solveSudoku_false_no_completion _ _ _ s Hs Hrun).
Qed.


Lemma to_strings_digits nb :
  shape9 nb → all_digits nb →
  to_strings toString nb = to_strings digit_string nb.
Proof.
  intros [Hl Hrows] Hd. unfold to_strings. apply list_eq. intros i.
  rewrite !list_lookup_fmap. destruct (nb !! i) as [r|] eqn:Er; [|done].
  simpl. f_equal. apply list_eq. intros j. rewrite !list_lookup_fmap.
  destruct (r !! j) as [v|] eqn:Ev; [|done]. simpl. f_equal.
  pose proof (lookup_lt_Some _ _ _ Er) as Hi.
  pose proof (lookup_lt_Some _ _ _ Ev) as Hj.
  rewrite Forall_lookup in Hrows. pose proof (Hrows _ _ Er) as Hlr.
  assert (Hv : get nb i j = v)
    by (unfold get; by rewrite Er; simpl; rewrite Ev).
  specialize (Hd i j ltac:(lia) ltac:(lia)). rewrite Hv in Hd.
  by apply toString_digits.
Qed.

Lemma to_numbers_digit b :
  ui_ok b → to_numbers parseInt b = to_numbers parseInt_digit b.
Proof.
  intros [Hl Hrows]. unfold to_numbers. apply list_eq. intros i.
  rewrite !list_lookup_fmap. destruct (b !! i) as [r|] eqn:Er; [|done].
  simpl. f_equal. apply list_eq. intros j. rewrite !list_lookup_fmap.
  destruct (r !! j) as [c|] eqn:Ec; [|done]. simpl. f_equal.
  rewrite Forall_lookup in Hrows. destruct (Hrows _ _ Er) as [_ Hr].
  rewrite Forall_lookup in Hr. specialize (Hr _ _ Ec).
  unfold to_number. destruct Hr as [-> | (d & Hd & ->)]; [done|]. simpl.
  rewrite parseInt_digits by done. symmetry. by apply parseInt_digit_ok.
Qed.

(** X11.  Load Example followed by Solve: whatever the state was, the
    search runs on the grid [example], ends without [alert] and the board
    shows [example_solution]. *)
Theorem loadExample_then_solve st st1 fuel :
  zeros example < fuel →
  (handleSolve parseInt (loadExample st)).2 = example ∧
  solve_timeout toString fuel (handleSolve parseInt (loadExample st)).2 st1
    = Some (Val (UI (to_strings digit_string example_solution) false, false)).
Proof.
  intros Hf.
  assert (Hex : to_numbers parseInt example_strings = example).
  { rewrite to_numbers_digit; [by vm_compute|].
    apply ui_okb_sound. by vm_compute. }
  unfold handleSolve, loadExample. cbn [snd ui_board]. rewrite Hex.
  split; [done|].
  unfold solve_timeout.
  rewrite (solveSudoku_fuel_mono 52 fuel example
             (Val true, example_solution)).
  - f_equal. f_equal. f_equal. f_equal. apply to_strings_digits.
    + apply shape9b_sound. by vm_compute.
    + apply solved_no_conflicts.
      apply (solveSudoku_true_completes 52 example example_solution).
      * apply well_formedb_sound. by vm_compute.
      * apply consistentb_sound. by vm_compute.
      * by vm_compute.
  - assert (zeros example = 51) by (by vm_compute). lia.
  - by vm_compute.
Qed.

(** X12.  Solve on the blank board, the board of the first render and the
    one [handleClear] sets: the search ends without [alert] and the board
    shows [first_grid], in which every row, column and box is a permutation
    of 1..9. *)
Theorem handleClear_then_solve st st1 fuel :
  81 < fuel →
  ui_board (handleClear st) = ui_board initial ∧
  solve_timeout toString fuel (handleSolve parseInt (handleClear st)).2 st1
    = Some (Val (UI (to_strings digit_string first_grid) false, false)) ∧
  solved first_grid.
Proof.
  intros Hf. split; [done|].
  assert (Hb : to_numbers parseInt blank_board = empty_grid).
  { rewrite to_numbers_digit; [by vm_compute|].
    apply ui_okb_sound. by vm_compute. }
  assert (Hrun : solveSudoku 82 (empty_grid)
                 = Some (Val true, first_grid)) by (by vm_compute).
  assert (Hsol : no_zeros first_grid ∧
                 completes (empty_grid) first_grid).
  { apply (solveSudoku_true_completes 82); [| |done].
    - apply well_formedb_sound. by vm_compute.
    - apply consistentb_sound. by vm_compute. }
  destruct Hsol as (_ & Hs & _ & Hsolved). split; [|done].
  unfold handleSolve, handleClear. cbn [snd ui_board]. rewrite Hb.
  unfold solve_timeout.
  rewrite (solveSudoku_fuel_mono 82 fuel _ _ ltac:(lia) Hrun).
  f_equal. f_equal. f_equal. f_equal. apply to_strings_digits; [done|].
  by apply solved_no_conflicts.
Qed.
End solving.

Lemma handleSolve_grid_witness :
  let '(st', numberBoard) :=
    handleSolve parseInt_digit (loadExample initial) in
  ui_board st' = ui_board (loadExample initial) ∧ isLoading st' = true ∧
  well_formed numberBoard ∧
  ∀ i j c, cell_at (ui_board (loadExample initial)) i j = Some c →
    (get numberBoard i j = 0%Z ↔ c = ""%string) ∧
    (c ≠ ""%string → digit_string (get numberBoard i j) = c).
Proof.
  apply (handleSolve_grid parseInt_digit digit_string parseInt_digit_ok
           (λ d _, eq_refl) (loadExample initial)).
  apply ui_okb_sound. vm_compute. reflexivity.
Defined.


Lemma solve_timeout_outcome_witness :
  let numberBoard := (handleSolve parseInt_digit (loadExample initial)).2 in
  ∃ st' alerted,
    (∀ fuel, zeros numberBoard < fuel →
       solve_timeout digit_string fuel numberBoard (loadExample initial)
         = Some (Val (st', alerted))) ∧
    isLoading st' = false ∧
    (alerted = true →
       ui_board st' = ui_board (loadExample initial) ∧
       ¬ ∃ s, completes numberBoard s) ∧
    (alerted = false → consistent numberBoard →
       completes numberBoard (to_numbers parseInt_digit (ui_board st'))).
Proof.
  apply (solve_timeout_outcome parseInt_digit digit_string parseInt_digit_ok
           (λ d _, eq_refl) (loadExample initial) (loadExample initial)).
  apply ui_okb_sound. vm_compute. reflexivity.
Defined.


Lemma loadExample_then_solve_witness :
  (handleSolve parseInt_digit (loadExample initial)).2 = example ∧
  solve_timeout digit_string 82
    (handleSolve parseInt_digit (loadExample initial)).2 initial
    = Some (Val (UI (to_strings digit_string example_solution) false, false)).
Proof.
  apply (loadExample_then_solve parseInt_digit digit_string
           parseInt_digit_ok (λ d _, eq_refl) initial initial 82).
  apply Nat.ltb_lt. vm_compute. reflexivity.
Defined.

Lemma handleClear_then_solve_witness :
  ui_board (handleClear (loadExample initial)) = ui_board initial ∧
  solve_timeout digit_string 82
    (handleSolve parseInt_digit (handleClear (loadExample initial))).2
    initial
    = Some (Val (UI (to_strings digit_string first_grid) false, false)) ∧
  solved first_grid.
Proof.
  apply (handleClear_then_solve parseInt_digit digit_string
           parseInt_digit_ok (λ d _, eq_refl) (loadExample initial) initial 82).
  lia.
Defined.

(** The empty grid is completed by every solved grid; [solveSudoku] leaves
    [first_grid], which comes before [example_solution]. *)
Lemma solveSudoku_first_completion_witness :
  lex_le first_grid example_solution.
Proof.
  apply (solveSudoku_first_completion 82 empty_grid first_grid
           example_solution).
  - apply shape9b_sound. vm_compute. reflexivity.
  - split; [apply shape9b_sound; vm_compute; reflexivity|]. split.
    + intros i j Hi Hj Hne. exfalso. apply Hne.
      assert (H : all9 (λ i, all9 (λ j, Z.eqb (get empty_grid i j) 0)) = true)
        by (vm_compute; reflexivity).
      rewrite all9_true in H. specialize (H i Hi). rewrite all9_true in H.
      specialize (H j Hj). lia.
    + apply (solveSudoku_true_completes 82 example example_solution).
      * apply well_formedb_sound. vm_compute. reflexivity.
      * apply consistentb_sound. vm_compute. reflexivity.
      * vm_compute. reflexivity.
  - vm_compute. reflexivity.
Defined.

(** ** The heavy lines of the rendered grid *)

(** X13.  For an index 0..8, the rendered cell gets a heavy line after it
    exactly when the next index is still on the board and belongs to another
    box, with the box index [index / 3] that [isValid] uses. *)
Theorem heavy_line_spec k :
  k < 9 → heavy_line k = true ↔ k + 1 < 9 ∧ k / 3 ≠ (k + 1) / 3.
Proof.
  intros Hk. unfold heavy_line.
  rewrite andb_true_iff, negb_true_iff, Nat.eqb_eq, Nat.eqb_neq. dlia.
Qed.

Lemma heavy_line_spec_witness :
  heavy_line 5 = true ↔ 5 + 1 < 9 ∧ 5 / 3 ≠ (5 + 1) / 3.
Proof. apply (heavy_line_spec 5). lia. Defined.

(** ** Boards with fewer than nine rows *)

Lemma findEmptyCell_short b : length b < 9 → findEmptyCell b ≠ Val None.
Proof.
  intros Hlen. rewrite findEmptyCell_scan.
  destruct (scan b) as [[[p|]|]|] eqn:E; simpl; [done| |  |done].
  - exfalso. by apply (scan_not_Some_None b).
  - exfalso. unfold scan in E. rewrite for_range_None in E.
    specialize (E (length b) ltac:(lia)).
    destruct (proj1 (scan_row_None b (length b)) E 0 ltac:(lia))
      as (v & Hv & _).
    unfold index2 in Hv. by rewrite lookup_ge_None_2 in Hv.
Qed.

(** X14.  On a board with fewer than nine rows [solveSudoku] never returns
    [true]: a call ends with a [TypeError] or returns [false]. *)
Theorem solveSudoku_short_board fuel b r b' :
  length b < 9 → solveSudoku fuel b = Some (r, b') →
  r = TypeError ∨ r = Val false.
Proof.
  revert b r b'. induction fuel as [|fuel IH]; intros b r b' Hlen; [done|].
  rewrite solveSudoku_S.
  pose proof (findEmptyCell_short b Hlen) as Hne.
  destruct (findEmptyCell b) as [[[row col]|]|] eqn:Ef; [|done|].
  - pose proof (findEmptyCell_Some _ _ _ Ef) as (_ & _ & Hz).
    destruct (try_candidates (solveSudoku fuel) row col 9 1 b)
      as [[[[r'|]|] b2]|] eqn:Et; try done.
    + pose proof (try_candidates_returns_true _ _ _ _ _ _ _ _ Et) as ->.
      apply try_candidates_inv_true in Et as (num & _ & _ & Hrec);
        [|apply solveSudoku_restores|done].
      apply IH in Hrec as [|]; [done | done |].
      unfold store. by rewrite length_alter.
    + intros [= <- _]. by right.
    + intros [= <- _]. by left.
  - intros [= <- _]. by left.
Qed.

Lemma solveSudoku_short_board_witness :
  @TypeError bool = TypeError ∨ @TypeError bool = Val false.
Proof.
  apply (solveSudoku_short_board 1 [] TypeError []); [simpl; lia|].
  vm_compute. reflexivity.
Defined.
